(** * genpdf: a shallow embedding of the element render protocol, the
    paragraph wrapper, the table layout and the math glyph batcher.

    Conventions of the embedding:
    - [Mm] and every [f64] of the source are modelled as exact rationals [Q]:
      the properties below are about which formula the code evaluates and
      which branch it takes, not about binary64 rounding.
    - [Result<T, Error>] is the inductive [result]; the [?] operator is the
      [match ... with Err e => Err e | Ok x => ...] written out.
    - Resumable elements are state machines: [render] takes the element's
      state and returns the result together with the updated state
      ([&mut self]).  Drawing operations are returned as a list of [Op]s in
      the order the code issues them. *)

From Stdlib Require Import List String Ascii Bool ZArith Lia QArith Qminmax Qabs Lqa DecimalString DecimalNat DecimalN.
Import ListNotations.
Open Scope Q_scope.

(** ** Errors and results (crate::error) *)

(** Modelled from the spec: [ErrorKind] of src/error.rs, which is not part
    of the given sources; only the kinds the code under src/ raises. *)
Inductive ErrorKind := InvalidData | PageSizeExceeded.

Record Error := mkError { err_msg : string; err_kind : ErrorKind }.

Inductive result (A : Type) :=
| Ok (a : A)
| Err (e : Error).
Arguments Ok {A} a.
Arguments Err {A} e.

Definition is_ok {A} (r : result A) : bool :=
  match r with Ok _ => true | Err _ => false end.

(** ** Geometry (crate::Mm, Position, Size) *)

Abbreviation Mm := Q (only parsing).

Record Position := mkPosition { px : Mm; py : Mm }.

Record Size := mkSize { width : Mm; height : Mm }.

Definition size_default : Size := mkSize 0 0.

(** Modelled from the spec: [Size::stack_vertical] of src/lib.rs, which is
    not part of the given sources: "width = max of the two widths, height =
    sum of the two heights". *)
Definition stack_vertical (s other : Size) : Size :=
  mkSize (Qmax (width s) (width other)) (height s + height other).

Record RenderResult := mkRenderResult { size : Size; has_more : bool }.

Definition render_result_default : RenderResult :=
  mkRenderResult size_default false.

(** ** Style (crate::style::Style), only the fields the claims use *)

(** Modelled from the spec: src/style.rs is not part of the given sources.
    A style is an attribute set with optional fields; [font_size] falls back
    to the default size 12 when unset. *)
Inductive Color := Rgb (r g b : Z).

Definition color_eqb (c d : Color) : bool :=
  match c, d with
  | Rgb r1 g1 b1, Rgb r2 g2 b2 => Z.eqb r1 r2 && Z.eqb g1 g2 && Z.eqb b1 b2
  end.

Record Style := mkStyle {
  st_font_size : option Z;
  st_color : option Color;
  st_bold : bool;
  st_italic : bool;
  st_strikethrough : bool
}.

Definition style_default : Style := mkStyle None None false false false.

Definition style_font_size (s : Style) : Z :=
  match st_font_size s with Some n => n | None => 12%Z end.

Definition with_color (s : Style) (c : Color) : Style :=
  mkStyle (st_font_size s) (Some c) (st_bold s) (st_italic s) (st_strikethrough s).

Definition set_bold (s : Style) : Style :=
  mkStyle (st_font_size s) (st_color s) true (st_italic s) (st_strikethrough s).

Definition set_italic (s : Style) : Style :=
  mkStyle (st_font_size s) (st_color s) (st_bold s) true (st_strikethrough s).

Definition is_strikethrough (s : Style) : bool := st_strikethrough s.

Definition or_else {A} (child parent : option A) : option A :=
  match child with Some x => Some x | None => parent end.

(** [Style::and] / [Style::merge]: every field set on [child] wins, unset
    fields are inherited from [parent]. *)
Definition style_and (parent child : Style) : Style :=
  mkStyle (or_else (st_font_size child) (st_font_size parent))
          (or_else (st_color child) (st_color parent))
          (st_bold parent || st_bold child)
          (st_italic parent || st_italic child)
          (st_strikethrough parent || st_strikethrough child).

(** Text of the source ([String], [&str]): a sequence of bytes, here ASCII
    characters, so that [len()] counts what [replace_range] and [drain]
    cut. *)
Definition Str := list ascii.

Record StyledString := mkStyledString { s : Str; sstyle : Style }.

(** ** PageBreak (src/elements.rs) *)

Module PageBreak.

Record PageBreak := mkPageBreak { cont : bool }.

Definition new : PageBreak := mkPageBreak false.

(** [PageBreak::render]; the context, area and style are ignored. *)
Definition render {Ctx Area} (self : PageBreak) (_context : Ctx)
  (_area : Area) (_style : Style) : result RenderResult * PageBreak :=
  if cont self then (Ok render_result_default, self)
  else (Ok (mkRenderResult (mkSize 1 0) true), mkPageBreak true).

(** A sequence of render calls with the given arguments; the results in
    call order. *)
Fixpoint render_calls {Ctx Area} (self : PageBreak)
  (calls : list (Ctx * Area * Style)) : list (result RenderResult) :=
  match calls with
  | [] => []
  | (c, a, s) :: rest =>
      let (r, self') := render self c a s in r :: render_calls self' rest
  end.

End PageBreak.

(** ** Math glyph batcher (src/math.rs) *)

Module MathBatch.

(** [POSITIONING_ACCURACY]: maximum difference between two y-offsets to be
    inserted into the same batch, in millimeters. *)
Definition POSITIONING_ACCURACY : Q := 1 # 100.

(** [f64::EPSILON] = 2^-52. *)
Definition EPSILON : Q := 1 # (2 ^ 52)%positive.

(** [PX_TO_MM] = 25.4 / 72. *)
Definition PX_TO_MM : Q := (254 # 10) / 72.

Definition mm_to_em (mm font_size : Q) : Q :=
  let pixels := mm / PX_TO_MM in
  pixels * (1 / font_size).

Definition Qltb (a b : Q) : bool := negb (Qle_bool b a).

Record TextSection := mkTextSection {
  y_origin : Q;
  font_size : Q;
  x_offsets : list Q;
  glyph_ids : list Z;
  color : Color;
  last_x : Q
}.

(** [TextSection::can_append]. *)
Definition can_append (self : TextSection) (y_origin' font_size' : Q)
  (color' : Color) : bool :=
  Qltb (Qabs (y_origin self - y_origin')) POSITIONING_ACCURACY
  && Qltb (font_size self - font_size') EPSILON
  && color_eqb (color self) color'.

Record Rule := mkRule { rx : Q; ry : Q; rwidth : Q; rheight : Q; rcolor : Color }.

Inductive MathOp :=
| OpTextSection (s : TextSection)
| OpRule (r : Rule).

Record MathBlock := mkMathBlock {
  block_size : Size;
  math_ops : list MathOp;
  current_color : Color
}.

Definition new (sz : Size) : MathBlock := mkMathBlock sz [] (Rgb 0 0 0).

Definition ops (self : MathBlock) : list MathOp := math_ops self.

(** The [Some(section)] arm of [push_glyph], applied to the section that
    [find_matching_text_section] returned. *)
Definition append_glyph (section : TextSection) (x : Q) (glyph_id : Z)
  (font_size' advance : Q) : TextSection :=
  let x_pos := mm_to_em x font_size' in
  mkTextSection (y_origin section) (font_size section)
    (x_offsets section ++ [x_pos - last_x section])
    (glyph_ids section ++ [glyph_id]) (color section) (x_pos + advance).

(** [find_matching_text_section] returns a mutable reference to the first
    text section of [math_ops] that [can_append]; the write through that
    reference is [upd].  [None] when no section matches. *)
Fixpoint update_matching_text_section (ops : list MathOp) (y font_size' : Q)
  (color' : Color) (upd : TextSection -> TextSection) : option (list MathOp) :=
  match ops with
  | [] => None
  | OpTextSection section :: rest =>
      if can_append section y font_size' color'
      then Some (OpTextSection (upd section) :: rest)
      else option_map (cons (OpTextSection section))
             (update_matching_text_section rest y font_size' color' upd)
  | op :: rest =>
      option_map (cons op) (update_matching_text_section rest y font_size' color' upd)
  end.

(** [MathBlock::push_glyph]. *)
Definition push_glyph (self : MathBlock) (x y : Q) (glyph_id : Z)
  (font_size' : Q) (color' : Color) (advance : Q) : MathBlock :=
  match update_matching_text_section (math_ops self) y font_size' color'
          (fun section => append_glyph section x glyph_id font_size' advance) with
  | Some ops' => mkMathBlock (block_size self) ops' (current_color self)
  | None =>
      mkMathBlock (block_size self)
        (math_ops self ++
           [OpTextSection (mkTextSection y font_size' [mm_to_em x font_size']
                             [glyph_id] color' (mm_to_em x font_size' + advance))])
        (current_color self)
  end.

(** Font data the ReX backend reads in [symbol]: the font's ascent and
    scale and the glyph's advance (external font collaborator). *)
Record GlyphFont := mkGlyphFont {
  ascent : Q; font_scale_x : Q; font_scale_y : Q; glyph_advance : Q
}.

(** [Backend::symbol]: a glyph event at ReX cursor [(pos_x, pos_y)]. *)
Definition symbol (self : MathBlock) (pos_x pos_y : Q) (gid : Z)
  (font_size' : Q) (ctx : GlyphFont) : MathBlock :=
  let y_offset := - (ascent ctx * font_scale_y ctx) * font_size' in
  let advance := glyph_advance ctx * font_scale_x ctx in
  push_glyph self (pos_x * PX_TO_MM) ((pos_y + y_offset) * PX_TO_MM) gid
    font_size' (current_color self) advance.

(** [Backend::rule]. *)
Definition rule (self : MathBlock) (pos_x pos_y w h : Q) : MathBlock :=
  mkMathBlock (block_size self)
    (math_ops self ++
       [OpRule (mkRule (pos_x * PX_TO_MM) (pos_y * PX_TO_MM)
                       (w * PX_TO_MM) (h * PX_TO_MM) (current_color self))])
    (current_color self).

Definition begin_color (self : MathBlock) (r g b : Z) : MathBlock :=
  mkMathBlock (block_size self) (math_ops self) (Rgb r g b).

Definition end_color (self : MathBlock) : MathBlock :=
  mkMathBlock (block_size self) (math_ops self) (Rgb 0 0 0).

(** The text sections of [ops()], in order. *)
Fixpoint sections (l : list MathOp) : list TextSection :=
  match l with
  | [] => []
  | OpTextSection s :: rest => s :: sections rest
  | OpRule _ :: rest => sections rest
  end.

End MathBatch.

(** ** Areas and drawing operations (crate::render) *)

Module Render.

(** Modelled from the spec: [render::Area] of src/render.rs, which is not
    part of the given sources.  "A mutable rectangular render target:
    tracks remaining size, applies margins, advances an offset cursor";
    [origin] is the absolute position of the area's top left corner. *)
Record Area := mkArea { origin : Position; area_size : Size }.

Definition Margins := (Mm * Mm * Mm * Mm)%type.  (* top, right, bottom, left *)

Definition trbl (t r b l : Mm) : Margins := (t, r, b, l).

Definition add_offset (a : Area) (p : Position) : Area :=
  mkArea (mkPosition (px (origin a) + px p) (py (origin a) + py p))
         (mkSize (width (area_size a) - px p) (height (area_size a) - py p)).

Definition add_margins (a : Area) (m : Margins) : Area :=
  let '(t, r, b, l) := m in
  mkArea (mkPosition (px (origin a) + l) (py (origin a) + t))
         (mkSize (width (area_size a) - (l + r)) (height (area_size a) - (t + b))).

Definition set_height (a : Area) (h : Mm) : Area :=
  mkArea (origin a) (mkSize (width (area_size a)) h).

Definition abs_pos (a : Area) (p : Position) : Position :=
  mkPosition (px (origin a) + px p) (py (origin a) + py p).

Record LineStyle := mkLineStyle { thickness : Mm }.

Record Metrics := mkMetrics { line_height : Mm; glyph_height : Mm }.

Definition metrics_default : Metrics := mkMetrics 0 0.

Definition metrics_max (m n : Metrics) : Metrics :=
  mkMetrics (Qmax (line_height m) (line_height n))
            (Qmax (glyph_height m) (glyph_height n)).

(** Drawing operations issued on the drawing surface, positions absolute. *)
Inductive Op :=
| DrawLine (points : list Position) (ls : LineStyle)
| PrintStr (pos : Position) (style : Style) (text : Str)
| PrintStrXoff (section_pos : Position) (style : Style) (text : Str) (xoff : Mm).

Definition draw_line (a : Area) (points : list Position) (ls : LineStyle) : Op :=
  DrawLine (map (abs_pos a) points) ls.

(** The font cache (external collaborator): string widths and metrics. *)
Record FontCache := mkFontCache {
  str_width_fc : Style -> Str -> Mm;
  metrics_fc : Style -> Metrics
}.

Record Context := mkContext { font_cache : FontCache }.

Definition str_width (st : Style) (fc : FontCache) (t : Str) : Mm :=
  str_width_fc fc st t.

Definition style_metrics (st : Style) (fc : FontCache) : Metrics :=
  metrics_fc fc st.

Definition style_line_height (st : Style) (fc : FontCache) : Mm :=
  line_height (metrics_fc fc st).

Definition Qltb (a b : Q) : bool := negb (Qle_bool b a).

(** Modelled from the spec: [Area::text_section] and [Area::print_str]
    return "could not place" instead of drawing when the line does not fit
    into the remaining height of the area. *)
Definition fits (a : Area) (pos : Position) (m : Metrics) : bool :=
  Qle_bool (glyph_height m) (height (area_size a) - py pos).

(** [Area::print_str]: [Ok true] and the drawing operation when the string
    fits, [Ok false] and nothing drawn otherwise. *)
Definition print_str (a : Area) (fc : FontCache) (pos : Position) (st : Style)
  (t : Str) : result bool * list Op :=
  if fits a pos (style_metrics st fc)
  then (Ok true, [PrintStr (abs_pos a pos) st t])
  else (Ok false, []).

(** A renderable element ([dyn Element]): its state and its [render]
    function, which returns the result, the updated state and the drawing
    operations it issued. *)
Definition RenderFn (E : Type) :=
  E -> Context -> Area -> Style -> result RenderResult * E * list Op.

(** The render driver's view of one element: successive render calls with
    the given arguments; an [Err] ends the render pass.  Returns each call's
    result and operations, and the element's final state. *)
Fixpoint run {E} (f : RenderFn E) (self : E) (calls : list (Context * Area * Style))
  : list (result RenderResult * list Op) * E :=
  match calls with
  | [] => ([], self)
  | (c, a, st) :: rest =>
      let '(r, self', ops) := f self c a st in
      match r with
      | Err _ => ([(r, ops)], self')
      | Ok _ => let '(outs, final) := run f self' rest in ((r, ops) :: outs, final)
      end
  end.

(** The characters a list of operations prints. *)
Definition emitted (ops : list Op) : Str :=
  flat_map (fun op => match op with
                      | PrintStrXoff _ _ t _ => t
                      | PrintStr _ _ t => t
                      | DrawLine _ _ => []
                      end) ops.

End Render.

(** ** Word wrapping (crate::wrap) *)

Module Wrap.
Import Render.

(** [char::is_whitespace] on ASCII. *)
Definition is_whitespace (c : ascii) : bool :=
  let n := nat_of_ascii c in
  (Nat.eqb n 32 || Nat.eqb n 9 || Nat.eqb n 10 || Nat.eqb n 11
   || Nat.eqb n 12 || Nat.eqb n 13)%bool.

Fixpoint trim_start (t : Str) : Str :=
  match t with
  | c :: rest => if is_whitespace c then trim_start rest else t
  | [] => []
  end.

Definition trim_end (t : Str) : Str := rev (trim_start (rev t)).

(** Modelled from the spec: [wrap::Words] of src/wrap.rs, which is not
    part of the given sources.  "Tokenize the pending styled runs into a
    queue of styled words (splitting on whitespace but preserving which
    run/style each word came from)": a word ends after each whitespace
    character, which stays attached to it. *)
Fixpoint split_words (t : Str) (acc : Str) : list Str :=
  match t with
  | [] => match acc with [] => [] | _ => [acc] end
  | c :: rest =>
      if is_whitespace c then (acc ++ [c]) :: split_words rest []
      else split_words rest (acc ++ [c])
  end.

Definition words (text : list StyledString) : list StyledString :=
  flat_map (fun w => map (fun p => mkStyledString p (sstyle w)) (split_words (s w) []))
    text.

Definition ss_width (fc : FontCache) (w : StyledString) : Mm :=
  str_width (sstyle w) fc (s w).

(** Modelled from the spec: [wrap::Wrapper] of src/wrap.rs, which is not
    part of the given sources.  "Repeatedly pull words into the current
    line while the cumulative width stays within the target width; when
    the next word would overflow, close the current line (unless it's
    empty, in which case place the over-long word alone ...) and begin a
    new line."  Each line comes with the number of bytes added to it while
    splitting words; the spec's wrapper never splits a word, so it is 0.
    The wrapper never reports an overflow. *)
Fixpoint wrap_go (fc : FontCache) (max_width : Mm) (ws : list StyledString)
  (buf : list StyledString) (x : Mm) : list (list StyledString * nat) :=
  match ws with
  | [] => match buf with [] => [] | _ => [(buf, 0%nat)] end
  | w :: rest =>
      let wd := ss_width fc w in
      match buf with
      | _ :: _ =>
          if Qltb max_width (x + wd) then (buf, 0%nat) :: wrap_go fc max_width rest [w] wd
          else wrap_go fc max_width rest (buf ++ [w]) (x + wd)
      | [] => wrap_go fc max_width rest [w] wd
      end
  end.

Definition wrapper (ws : list StyledString) (context : Context) (max_width : Mm)
  : list (list StyledString * nat) :=
  wrap_go (font_cache context) max_width ws [] 0.

Definition has_overflowed (ws : list StyledString) (context : Context) (max_width : Mm)
  : bool := false.

End Wrap.

(** ** Paragraph (src/elements.rs) *)

Module Paragraph.
Import Render Wrap.

Inductive Alignment := Left | Center | Right | Justified (trim_spaces : bool).

Record Paragraph := mkParagraph {
  text : list StyledString;
  words : list StyledString;
  style_applied : bool;
  alignment : Alignment
}.

(** [Paragraph::new], [push] and [From<Vec<StyledString>>] build a
    paragraph with an empty word queue. *)
Definition from_text (t : list StyledString) (al : Alignment) : Paragraph :=
  mkParagraph t [] false al.

Definition get_offset (self : Paragraph) (w max_width : Mm) : Mm :=
  match alignment self with
  | Left | Justified _ => 0
  | Center => (max_width - w) / 2
  | Right => max_width - w
  end.

Definition apply_style (self : Paragraph) (style : Style) : Paragraph :=
  if negb (style_applied self) then
    mkParagraph (map (fun w => mkStyledString (s w) (style_and style (sstyle w))) (text self))
      (words self) true (alignment self)
  else self.

Definition last_opt {A} (l : list A) : option A :=
  match rev l with x :: _ => Some x | [] => None end.

Definition Qsum (l : list Q) : Q := fold_right Qplus 0 l.

(** The [extra_word_spacing] block of [Paragraph::render]; [has_next] is
    [next_wrap.is_some()]. *)
Definition extra_word_spacing (al : Alignment) (has_next : bool) (fc : FontCache)
  (area_width : Mm) (style : Style) (line : list StyledString) (w : Mm) : Mm :=
  match al with
  | Justified trim_spaces =>
      if has_next then
        let w1 := match line with
                  | word :: _ =>
                      w - (ss_width fc word - str_width (sstyle word) fc (trim_start (s word)))
                  | [] => w
                  end in
        let w2 := match trim_spaces, last_opt line with
                  | true, Some word =>
                      w1 - (ss_width fc word - str_width (sstyle word) fc (trim_end (s word)))
                  | _, _ => w1
                  end in
        let leftover_space := area_width - w2 in
        (leftover_space / inject_Z (Z.of_nat (Nat.max (List.length line - 1) 1)))
          / inject_Z (style_font_size style)
      else 0
  | _ => 0
  end.

(** One line the loop of [Paragraph::render] placed: the area it was
    placed in, its offset, its metrics and its extra word spacing. *)
Record RenderedLine := mkRenderedLine {
  rl_line : list StyledString;
  rl_area : Area;
  rl_position : Position;
  rl_metrics : Metrics;
  rl_extra : Mm
}.

(** The drawing operations of a placed line: for each segment, the
    [print_str_xoff] into the text section and, for struck-through
    segments, the strike line. *)
Fixpoint segment_ops (fc : FontCache) (strike_area : Area) (section_pos : Position)
  (m : Metrics) (extra : Mm) (line : list StyledString) : list Op :=
  match line with
  | [] => []
  | w :: rest =>
      let wd := ss_width fc w in
      PrintStrXoff section_pos (sstyle w) (s w) extra
      :: (if is_strikethrough (sstyle w)
          then [draw_line strike_area
                  [mkPosition 0 (glyph_height m / 2); mkPosition wd (glyph_height m / 2)]
                  (mkLineStyle (3 # 10))]
          else [])
      ++ segment_ops fc (add_offset strike_area (mkPosition wd 0)) section_pos m extra rest
  end.

Definition line_ops (fc : FontCache) (rl : RenderedLine) : list Op :=
  segment_ops fc (add_offset (rl_area rl) (rl_position rl))
    (abs_pos (rl_area rl) (rl_position rl)) (rl_metrics rl) (rl_extra rl) (rl_line rl).

Definition segments_len (line : list StyledString) : nat :=
  fold_right (fun w n => (List.length (s w) + n)%nat) 0%nat line.

(** The [while let Some((line, delta)) = curr_wrap] loop; returns the
    result, [rendered_len] and the placed lines. *)
Fixpoint render_lines (self : Paragraph) (context : Context) (area : Area) (style : Style)
  (lines : list (list StyledString * nat)) (res : RenderResult) (rendered_len : nat)
  : RenderResult * nat * list RenderedLine :=
  match lines with
  | [] => (res, rendered_len, [])
  | (line, delta) :: next_wrap =>
      let fc := font_cache context in
      let w := Qsum (map (ss_width fc) line) in
      let metrics := fold_left metrics_max (map (fun x => style_metrics (sstyle x) fc) line)
                       metrics_default in
      let position := mkPosition (get_offset self w (width (area_size area))) 0 in
      let extra := extra_word_spacing (alignment self)
                     (match next_wrap with [] => false | _ => true end)
                     fc (width (area_size area)) style line w in
      if fits area position metrics then
        let rl := mkRenderedLine line area position metrics extra in
        let rendered_len' := (rendered_len + segments_len line - delta)%nat in
        let res' := mkRenderResult (stack_vertical (size res) (mkSize w (line_height metrics)))
                      (has_more res) in
        let '(r, n, rls) := render_lines self context
                              (add_offset area (mkPosition 0 (line_height metrics)))
                              style next_wrap res' rendered_len' in
        (r, n, rl :: rls)
      else (mkRenderResult (size res) true, rendered_len, [])
  end.

(** The pruning loop at the end of [Paragraph::render]: drop
    [rendered_len] bytes from the front of the word queue, splitting the
    first word in place ([replace_range(..rendered_len, "")]). *)
Fixpoint prune (rendered_len : nat) (ws : list StyledString) : list StyledString :=
  match rendered_len, ws with
  | O, _ => ws
  | _, [] => []
  | S _, w :: rest =>
      if Nat.leb (List.length (s w)) rendered_len
      then prune (rendered_len - List.length (s w)) rest
      else mkStyledString (skipn rendered_len (s w)) (sstyle w) :: rest
  end.

(** [Paragraph::render]: the result, the paragraph's new state and the
    drawing operations. *)
Definition render (self0 : Paragraph) (context : Context) (area : Area) (style : Style)
  : result RenderResult * Paragraph * list Op :=
  let self1 := apply_style self0 style in
  let self2 :=
    match words self1 with
    | [] => mkParagraph [] (Wrap.words (text self1)) (style_applied self1) (alignment self1)
    | _ => self1
    end in
  match words self1, text self1 with
  | [], [] => (Ok render_result_default, self1, [])
  | _, _ =>
      let lines := wrapper (words self2) context (width (area_size area)) in
      let '(res, rendered_len, rls) :=
        render_lines self2 context area style lines render_result_default 0 in
      let ops := flat_map (line_ops (font_cache context)) rls in
      if has_overflowed (words self2) context (width (area_size area)) then
        (Err (mkError "Page overflowed while trying to wrap a string"
                PageSizeExceeded), self2, ops)
      else
        (Ok res, mkParagraph (text self2) (prune rendered_len (words self2))
                   (style_applied self2) (alignment self2), ops)
  end.

End Paragraph.

(** [vec[i] = x]: replaces the element at index [i]; indices are in range
    wherever the code below writes. *)
Fixpoint replace_nth {A} (l : list A) (i : nat) (x : A) : list A :=
  match l, i with
  | [], _ => []
  | _ :: rest, O => x :: rest
  | y :: rest, S j => y :: replace_nth rest j x
  end.

(** ** LinearLayout (src/elements.rs) *)

Module LinearLayout.
Import Render.

Section WithElements.
Variable E : Type.
Variable render_elem : RenderFn E.

Record LinearLayout := mkLinearLayout { elements : list E; render_idx : nat }.

(** The [while] loop of [render_vertical]; [fuel] bounds the number of
    iterations, each of which moves [render_idx] forward. *)
Fixpoint render_loop (fuel : nat) (context : Context) (area : Area) (style : Style)
  (self : LinearLayout) (res : RenderResult) : result RenderResult * LinearLayout * list Op :=
  let done := (Ok (mkRenderResult (size res)
                     (Nat.ltb (render_idx self) (List.length (elements self)))), self, []) in
  match fuel with
  | O => done
  | S fuel' =>
      if Qltb 0 (height (area_size area))
         && Nat.ltb (render_idx self) (List.length (elements self)) then
        match nth_error (elements self) (render_idx self) with
        | None => done
        | Some e =>
            let '(r, e', ops) := render_elem e context area style in
            let self' := mkLinearLayout (replace_nth (elements self) (render_idx self) e')
                           (render_idx self) in
            match r with
            | Err err => (Err err, self', ops)
            | Ok element_result =>
                let area' := add_offset area (mkPosition 0 (height (size element_result))) in
                let sz := stack_vertical (size res) (size element_result) in
                if has_more element_result then (Ok (mkRenderResult sz true), self', ops)
                else
                  let '(r2, self2, ops2) :=
                    render_loop fuel' context area' style
                      (mkLinearLayout (elements self') (S (render_idx self)))
                      (mkRenderResult sz (has_more res)) in
                  (r2, self2, ops ++ ops2)
            end
        end
      else done
  end.

(** [LinearLayout::render] = [render_vertical]. *)
Definition render (self : LinearLayout) (context : Context) (area : Area) (style : Style)
  : result RenderResult * LinearLayout * list Op :=
  render_loop (List.length (elements self) - render_idx self) context area style self
    render_result_default.

(** The claim's description of the sequential stack, over the pending
    children (those from the resume cursor on): render them in order into
    the shrinking area; stop with [has_more = true] when a child reports
    [has_more = true] (that child stays pending) or when the area height
    has reached zero with children pending; fold the sizes with
    [stack_vertical].  Returns the outcome (size and [has_more]), the
    pending children after the call, the number of children completed and
    the operations. *)
Fixpoint stack_spec (pending : list E) (context : Context) (area : Area) (style : Style)
  (acc : Size) : result (Size * bool) * list E * nat * list Op :=
  match pending with
  | [] => (Ok (acc, false), [], O, [])
  | c :: rest =>
      if Qle_bool (height (area_size area)) 0 then (Ok (acc, true), pending, O, [])
      else
        let '(r, c', ops) := render_elem c context area style in
        match r with
        | Err err => (Err err, c' :: rest, O, ops)
        | Ok er =>
            let acc' := stack_vertical acc (size er) in
            if has_more er then (Ok (acc', true), c' :: rest, O, ops)
            else
              let '(r2, rest', n, ops2) :=
                stack_spec rest context
                  (add_offset area (mkPosition 0 (height (size er)))) style acc' in
              (r2, c' :: rest', S n, ops ++ ops2)
        end
  end.

End WithElements.

(** A stack outcome as a render result. *)
Definition outcome_result (rs : result (Size * bool)) : result RenderResult :=
  match rs with
  | Ok (sz, hm) => Ok (mkRenderResult sz hm)
  | Err e => Err e
  end.

End LinearLayout.

(** ** FramedElement (src/elements.rs) *)

Module FramedElement.
Import Render.

Section WithElement.
Variable E : Type.
Variable render_elem : RenderFn E.

Record FramedElement := mkFramedElement {
  element : E; is_first : bool; line_style : LineStyle
}.

Definition with_line_style (e : E) (ls : LineStyle) : FramedElement :=
  mkFramedElement e true ls.

Definition render (self : FramedElement) (context : Context) (area : Area) (style : Style)
  : result RenderResult * FramedElement * list Op :=
  let t := thickness (line_style self) in
  let line_offset := t / 2 in
  let element_area0 := add_margins area (trbl 0 t t t) in
  let frame_area0 := add_margins area (trbl 0 line_offset 0 line_offset) in
  let element_area := if is_first self then add_margins element_area0 (trbl t 0 0 0)
                      else element_area0 in
  let frame_area1 := if is_first self then add_margins frame_area0 (trbl line_offset 0 0 0)
                     else frame_area0 in
  let '(r, e', inner_ops) := render_elem (element self) context element_area style in
  match r with
  | Err err => (Err err, mkFramedElement e' (is_first self) (line_style self), inner_ops)
  | Ok res0 =>
      let h0 := height (size res0) in
      let frame_area := if has_more res0 then set_height frame_area1 (h0 + line_offset)
                        else set_height frame_area1 (h0 + t) in
      let fw := width (area_size frame_area) in
      let fh := height (area_size frame_area) in
      let top_left := mkPosition 0 0 in
      let top_right := mkPosition fw 0 in
      let bottom_left := mkPosition 0 fh in
      let bottom_right := mkPosition fw fh in
      let h1 := if is_first self then h0 + t else h0 in
      let top := if is_first self
                 then [draw_line frame_area [top_left; top_right] (line_style self)] else [] in
      let sides := [draw_line frame_area [top_left; bottom_left] (line_style self);
                    draw_line frame_area [top_right; bottom_right] (line_style self)] in
      let h2 := if negb (has_more res0) then h1 + t else h1 in
      let bottom := if negb (has_more res0)
                    then [draw_line frame_area [bottom_left; bottom_right] (line_style self)]
                    else [] in
      (Ok (mkRenderResult (mkSize (width (area_size area)) h2) (has_more res0)),
       mkFramedElement e' false (line_style self),
       inner_ops ++ top ++ sides ++ bottom)
  end.

(** The four border lines of a frame area. *)
Definition top_border (fa : Area) (ls : LineStyle) : Op :=
  draw_line fa [mkPosition 0 0; mkPosition (width (area_size fa)) 0] ls.
Definition left_border (fa : Area) (ls : LineStyle) : Op :=
  draw_line fa [mkPosition 0 0; mkPosition 0 (height (area_size fa))] ls.
Definition right_border (fa : Area) (ls : LineStyle) : Op :=
  draw_line fa [mkPosition (width (area_size fa)) 0;
                mkPosition (width (area_size fa)) (height (area_size fa))] ls.
Definition bottom_border (fa : Area) (ls : LineStyle) : Op :=
  draw_line fa [mkPosition 0 (height (area_size fa));
                mkPosition (width (area_size fa)) (height (area_size fa))] ls.

End WithElement.

End FramedElement.

(** ** BulletPoint (src/elements.rs) *)

Module BulletPoint.
Import Render.

Section WithElement.
Variable E : Type.
Variable render_elem : RenderFn E.

Record BulletPoint := mkBulletPoint {
  element : E; indent : Mm; bullet_space : Mm; bullet : Str; bullet_rendered : bool
}.

(** [BulletPoint::new] with [set_bullet]. *)
Definition new (e : E) (b : Str) : BulletPoint := mkBulletPoint e 10 2 b false.

Definition render (self : BulletPoint) (context : Context) (area : Area) (style : Style)
  : result RenderResult * BulletPoint * list Op :=
  let element_area := add_offset area (mkPosition (indent self) 0) in
  let '(r, e', inner_ops) := render_elem (element self) context element_area style in
  let self' := mkBulletPoint e' (indent self) (bullet_space self) (bullet self)
                 (bullet_rendered self) in
  match r with
  | Err err => (Err err, self', inner_ops)
  | Ok res0 =>
      let res := mkRenderResult (mkSize (width (size res0) + indent self) (height (size res0)))
                   (has_more res0) in
      if negb (bullet_rendered self) then
        let bullet_width := str_width style (font_cache context) (bullet self) in
        let '(pr, bullet_ops) :=
          print_str area (font_cache context)
            (mkPosition (indent self - bullet_width - bullet_space self) 0) style
            (bullet self) in
        match pr with
        | Err err => (Err err, self', inner_ops ++ bullet_ops)
        | Ok _ =>
            (Ok res, mkBulletPoint e' (indent self) (bullet_space self) (bullet self) true,
             inner_ops ++ bullet_ops)
        end
      else (Ok res, self', inner_ops)
  end.

End WithElement.

End BulletPoint.

(** ** TableLayout (src/elements.rs) *)

Module TableLayout.
Import Render.

(** Modelled from the spec: [Area::split_horizontally] of src/render.rs,
    which is not part of the given sources: "N adjacent sub-areas whose
    widths are proportional to the given weights and sum to the parent's
    full width". *)
Fixpoint split_go (a : Area) (total : Q) (weights : list nat) (x : Mm) : list Area :=
  match weights with
  | [] => []
  | w :: rest =>
      let cw := width (area_size a) * inject_Z (Z.of_nat w) / total in
      mkArea (mkPosition (px (origin a) + x) (py (origin a))) (mkSize cw (height (area_size a)))
        :: split_go a total rest (x + cw)
  end.

Definition split_horizontally (a : Area) (weights : list nat) : list Area :=
  split_go a (inject_Z (Z.of_nat (fold_right plus 0%nat weights))) weights 0.

Section WithCells.
Variable E : Type.
Variable render_elem : RenderFn E.

(** A [CellDecorator] implementation: its state and its three methods. *)
Variable D : Type.
Variable set_table_size : D -> nat -> nat -> D.
Variable prepare_cell : D -> nat -> nat -> Area -> Area.
Variable decorate_cell : D -> nat -> nat -> bool -> Area -> Mm -> Mm * D * list Op.

Record TableLayout := mkTableLayout {
  column_weights : list nat;
  rows : list (list E);
  render_idx : nat;
  cell_decorator : option D
}.

Definition new (column_weights : list nat) : TableLayout :=
  mkTableLayout column_weights [] 0 None.

Definition push_row (self : TableLayout) (row : list E) : result unit * TableLayout :=
  if Nat.eqb (List.length row) (List.length (column_weights self)) then
    (Ok tt, mkTableLayout (column_weights self) (rows self ++ [row]) (render_idx self)
              (cell_decorator self))
  else
    (Err (mkError "Expected elements in table row" InvalidData), self).

(** The cell loop of [render_row]: renders each cell into its area,
    or-ing [has_more] and taking the maximum height. *)
Fixpoint render_cells (context : Context) (style : Style) (cell_areas : list Area)
  (cells : list E) (hm : bool) (row_height : Mm)
  : result (bool * Mm) * list E * list Op :=
  match cell_areas, cells with
  | a :: areas', c :: cells' =>
      let '(r, c', ops) := render_elem c context a style in
      match r with
      | Err err => (Err err, c' :: cells', ops)
      | Ok er =>
          let '(r2, cells2, ops2) :=
            render_cells context style areas' cells' (hm || has_more er)
              (Qmax row_height (height (size er))) in
          (r2, c' :: cells2, ops ++ ops2)
      end
  | _, _ => (Ok (hm, row_height), cells, [])
  end.

Fixpoint decorate_cells (d : D) (row : nat) (hm : bool) (areas : list Area) (i : nat)
  (row_height h : Mm) : Mm * D * list Op :=
  match areas with
  | [] => (h, d, [])
  | a :: rest =>
      let '(ch, d', ops) := decorate_cell d i row hm a row_height in
      let '(h2, d2, ops2) := decorate_cells d' row hm rest (S i) row_height (Qmax h ch) in
      (h2, d2, ops ++ ops2)
  end.

Definition render_row (self : TableLayout) (context : Context) (area : Area) (style : Style)
  : result RenderResult * TableLayout * list Op :=
  let areas := split_horizontally area (column_weights self) in
  let cell_areas := match cell_decorator self with
                    | Some d => map (fun '(i, a) => prepare_cell d i (render_idx self) a)
                                  (combine (seq 0 (List.length areas)) areas)
                    | None => areas
                    end in
  let row := match nth_error (rows self) (render_idx self) with Some r => r | None => [] end in
  let '(r, row', ops) := render_cells context style cell_areas row false 0 in
  let self' := mkTableLayout (column_weights self)
                 (replace_nth (rows self) (render_idx self) row') (render_idx self)
                 (cell_decorator self) in
  match r with
  | Err err => (Err err, self', ops)
  | Ok (hm, row_height) =>
      match cell_decorator self with
      | Some d =>
          let '(h, d', ops2) := decorate_cells d (render_idx self) hm areas 0 row_height row_height in
          (Ok (mkRenderResult (mkSize 0 h) hm),
           mkTableLayout (column_weights self') (rows self') (render_idx self') (Some d'),
           ops ++ ops2)
      | None => (Ok (mkRenderResult (mkSize 0 row_height) hm), self', ops)
      end
  end.

Fixpoint render_loop (fuel : nat) (self : TableLayout) (context : Context) (area : Area)
  (style : Style) (h : Mm) : result Mm * TableLayout * list Op :=
  match fuel with
  | O => (Ok h, self, [])
  | S fuel' =>
      if Nat.ltb (render_idx self) (List.length (rows self)) then
        let '(r, self', ops) := render_row self context area style in
        match r with
        | Err err => (Err err, self', ops)
        | Ok row_result =>
            let h' := h + height (size row_result) in
            if has_more row_result then (Ok h', self', ops)
            else
              let '(r2, self2, ops2) :=
                render_loop fuel'
                  (mkTableLayout (column_weights self') (rows self') (S (render_idx self'))
                     (cell_decorator self'))
                  context (add_offset area (mkPosition 0 (height (size row_result)))) style h' in
              (r2, self2, ops ++ ops2)
        end
      else (Ok h, self, [])
  end.

Definition render (self : TableLayout) (context : Context) (area : Area) (style : Style)
  : result RenderResult * TableLayout * list Op :=
  match column_weights self with
  | [] => (Ok render_result_default, self, [])
  | _ =>
      let self1 := mkTableLayout (column_weights self) (rows self) (render_idx self)
                     (option_map (fun d => set_table_size d (List.length (column_weights self))
                                             (List.length (rows self)))
                        (cell_decorator self)) in
      let '(r, self2, ops) :=
        render_loop (List.length (rows self1) - render_idx self1) self1 context area style 0 in
      match r with
      | Err err => (Err err, self2, ops)
      | Ok h => (Ok (mkRenderResult (mkSize (width (area_size area)) h)
                       (Nat.ltb (render_idx self2) (List.length (rows self2)))), self2, ops)
      end
  end.

(** A sequence of [push_row] calls; the results in call order. *)
Fixpoint push_rows (self : TableLayout) (pushed : list (list E))
  : list (result unit) * TableLayout :=
  match pushed with
  | [] => ([], self)
  | row :: rest =>
      let '(r, self') := push_row self row in
      let '(rs, self2) := push_rows self' rest in
      (r :: rs, self2)
  end.

End WithCells.

End TableLayout.

(** ** Syntax highlighting (src/syntax_highlighting.rs) and CodeBlock
    (src/elements/codeblock.rs), with the [code-syntax-highlighting]
    feature enabled *)

Module CodeBlock.
Import Render.

Definition newline : ascii := Ascii.ascii_of_nat 10.
Definition carriage_return : ascii := Ascii.ascii_of_nat 13.

Definition ascii_eqb (a b : ascii) : bool := Ascii.eqb a b.

(** [str::lines]: split at ['\n'], drop one trailing ['\r'] of each line,
    and yield no final empty line after a trailing ['\n']. *)
Definition strip_cr (l : Str) : Str :=
  match rev l with
  | c :: rest => if ascii_eqb c carriage_return then rev rest else l
  | [] => l
  end.

Fixpoint lines_go (t : Str) (acc : Str) : list Str :=
  match t with
  | [] => match acc with [] => [] | _ => [strip_cr acc] end
  | c :: rest =>
      if ascii_eqb c newline then strip_cr acc :: lines_go rest []
      else lines_go rest (acc ++ [c])
  end.

Definition lines (t : Str) : list Str := lines_go t [].

(** [LinesWithEndings::from]: the lines with their line endings kept. *)
Fixpoint lines_with_endings_go (t : Str) (acc : Str) : list Str :=
  match t with
  | [] => match acc with [] => [] | _ => [acc] end
  | c :: rest =>
      if ascii_eqb c newline then (acc ++ [c]) :: lines_with_endings_go rest []
      else lines_with_endings_go rest (acc ++ [c])
  end.

(** A [String] is held as its UTF-8 bytes.  A continuation byte has the
    form [10xxxxxx]; every other byte starts a [char]. *)
Definition is_utf8_continuation (b : ascii) : bool :=
  Nat.leb 128 (nat_of_ascii b) && Nat.ltb (nat_of_ascii b) 192.

(** A byte below 128 is a one-byte [char] (ASCII). *)
Definition is_ascii7 (b : ascii) : bool := Nat.ltb (nat_of_ascii b) 128.

(** [str::chars().count()]. *)
Definition char_count (t : Str) : nat :=
  List.length (filter (fun b => negb (is_utf8_continuation b)) t).

(** [str::is_char_boundary]. *)
Definition is_char_boundary (t : Str) (index : nat) : bool :=
  if Nat.eqb index 0 then true
  else match nth_error t index with
       | None => Nat.eqb index (List.length t)
       | Some b => negb (is_utf8_continuation b)
       end.

(** [String::drain(..end)], keeping what is left: it panics ([None]) when
    [end] is past the end of the string or not on a [char] boundary. *)
Definition drain_to (t : Str) (end_ : nat) : option Str :=
  if Nat.leb end_ (List.length t) && is_char_boundary t end_ then Some (skipn end_ t)
  else None.

(** [str::trim_end_matches('\n')]. *)
Definition trim_end_newlines (t : Str) : Str :=
  rev ((fix drop (l : Str) := match l with
                              | c :: rest => if ascii_eqb c newline then drop rest else l
                              | [] => []
                              end) (rev t)).

Section WithSyntect.
(** The syntect collaborator: syntax definitions and themes looked up by
    name, and the line highlighter [HighlightLines] run over all lines. *)
Variable Syntax Theme : Type.
Record SyntaxStyle := mkSyntaxStyle { fg_r : Z; fg_g : Z; fg_b : Z; fs_bold : bool;
                                      fs_italic : bool }.
Variable highlight_lines : Syntax -> Theme -> list Str -> list (list (SyntaxStyle * Str)).

Record SyntaxHighlighter := mkSyntaxHighlighter {
  find_syntax_by_token : string -> option Syntax;
  themes_get : string -> option Theme
}.

Definition highlight_segment (base_style : Style) (only_regular_font : bool)
  (seg : SyntaxStyle * Str) : StyledString :=
  let '(syntax_style, code_segment) := seg in
  let style0 := with_color base_style (Rgb (fg_r syntax_style) (fg_g syntax_style)
                                         (fg_b syntax_style)) in
  let style := if negb only_regular_font then
                 let st1 := if fs_bold syntax_style then set_bold style0 else style0 in
                 if fs_italic syntax_style then set_italic st1 else st1
               else style0 in
  mkStyledString code_segment style.

(** [SyntaxHighlighter::highlight]. *)
Definition highlight (self : SyntaxHighlighter) (code : Str) (language theme : string)
  (base_style : Style) (only_regular_font : bool) : option (list (list StyledString)) :=
  match find_syntax_by_token self language with
  | None => None
  | Some syntax =>
      match themes_get self theme with
      | None => None
      | Some th =>
          Some (map (map (highlight_segment base_style only_regular_font))
                  (highlight_lines syntax th (lines_with_endings_go code [])))
      end
  end.

Record CodeBlock := mkCodeBlock {
  code : Str;
  base_style : Style;
  only_regular_font : bool;
  language : string;
  theme : option string
}.

Definition dummy_highlighting (self : CodeBlock) (style : Style) : list (list StyledString) :=
  map (fun line => [mkStyledString line style]) (lines (code self)).

(** How [CodeBlock::render] obtains its lines; [None] is the panic of
    [expect("Trying to use Codeblocks without syntax highlighter")]. *)
Definition highlighted_lines (self : CodeBlock) (hl : option SyntaxHighlighter)
  : option (list (list StyledString)) :=
  match theme self with
  | Some th =>
      match hl with
      | None => None
      | Some h =>
          Some (match highlight h (code self) (language self) th (base_style self)
                        (only_regular_font self) with
                | Some ls => ls
                | None => dummy_highlighting self (base_style self)
                end)
      end
  | None => Some (dummy_highlighting self (base_style self))
  end.

Definition ss_width (fc : FontCache) (w : StyledString) : Mm :=
  str_width (sstyle w) fc (s w).

(** The [for line in highlighted_lines] loop: result, rendered character
    count and operations. *)
Fixpoint render_code_lines (fc : FontCache) (area : Area) (ls : list (list StyledString))
  (res : RenderResult) (rendered_chars : nat) : RenderResult * nat * list Op :=
  match ls with
  | [] => (res, rendered_chars, [])
  | line :: rest =>
      let w := fold_right Qplus 0 (map (ss_width fc) line) in
      let metrics := fold_left metrics_max (map (fun x => style_metrics (sstyle x) fc) line)
                       metrics_default in
      if fits area (mkPosition 0 0) metrics then
        let prints := map (fun x => PrintStrXoff (abs_pos area (mkPosition 0 0)) (sstyle x)
                                      (trim_end_newlines (s x)) 0) line in
        let n := fold_right (fun x k => (char_count (s x) + k)%nat) 0%nat line in
        let '(r, m, ops) :=
          render_code_lines fc (add_offset area (mkPosition 0 (line_height metrics))) rest
            (mkRenderResult (stack_vertical (size res) (mkSize w (line_height metrics)))
               (has_more res))
            (rendered_chars + n) in
        (r, m, prints ++ ops)
      else (mkRenderResult (size res) true, rendered_chars, [])
  end.

(** [CodeBlock::render]; [None] is the panic of the [expect] or of the
    [drain]. *)
Definition render (self : CodeBlock) (context : Context) (hl : option SyntaxHighlighter)
  (area : Area) (_style : Style) : option (result RenderResult * CodeBlock * list Op) :=
  match code self with
  | [] => Some (Ok render_result_default, self, [])
  | _ =>
      match highlighted_lines self hl with
      | None => None
      | Some ls =>
          let '(res, rendered_chars, ops) :=
            render_code_lines (font_cache context) area ls render_result_default 0 in
          match drain_to (code self) rendered_chars with
          | None => None
          | Some rest =>
              Some (Ok res, mkCodeBlock rest (base_style self) (only_regular_font self)
                              (language self) (theme self), ops)
          end
      end
  end.

End WithSyntect.

End CodeBlock.

(** ** Break (src/elements.rs) *)

Module Break.
Import Render.

Record Break := mkBreak { lines : Q }.

Definition new (lines : Q) : Break := mkBreak lines.

(** [Break::render].  [Q] division by zero yields 0 where [f64] division
    yields an infinity; the two differ only when the line height is zero
    and the area has no height left. *)
Definition render (self : Break) (context : Context) (area : Area) (style : Style)
  : result RenderResult * Break * list Op :=
  if Qle_bool (lines self) 0 then (Ok render_result_default, self, [])
  else
    let line_height := style_line_height style (font_cache context) in
    let break_height := line_height * lines self in
    if Qltb break_height (height (area_size area)) then
      (Ok (mkRenderResult (mkSize 0 break_height) false), mkBreak 0, [])
    else
      let h := height (area_size area) in
      (Ok (mkRenderResult (mkSize 0 h) false), mkBreak (lines self - h / line_height), []).

(** The height the calls of a render pass reported, in call order. *)
Fixpoint consumed (outs : list (result RenderResult * list Op)) : Q :=
  match outs with
  | [] => 0
  | (Ok r, _) :: rest => height (size r) + consumed rest
  | (Err _, _) :: rest => consumed rest
  end.

End Break.

(** ** PaddedElement (src/elements.rs) *)

Module PaddedElement.
Import Render.

Section WithElement.
Variable E : Type.
Variable render_elem : RenderFn E.

Record PaddedElement := mkPaddedElement { element : E; padding : Margins }.

Definition new (element : E) (padding : Margins) : PaddedElement :=
  mkPaddedElement element padding.

(** [PaddedElement::render]: the margins [Margins { bottom: 0, ..padding }]
    are taken off the area, the [?] returns the wrapped element's error. *)
Definition render (self : PaddedElement) (context : Context) (area : Area) (style : Style)
  : result RenderResult * PaddedElement * list Op :=
  let '(pad_top, pad_right, pad_bottom, pad_left) := padding self in
  let area' := add_margins area (trbl pad_top pad_right 0 pad_left) in
  let '(r, e', ops) := render_elem (element self) context area' style in
  let self' := mkPaddedElement e' (padding self) in
  match r with
  | Err err => (Err err, self', ops)
  | Ok res =>
      (Ok (mkRenderResult (mkSize (width (size res) + (pad_left + pad_right))
                                  (height (size res) + (pad_top + pad_bottom)))
             (has_more res)), self', ops)
  end.

End WithElement.

End PaddedElement.

(** ** StyledElement (src/elements.rs) *)

Module StyledElement.
Import Render.

Section WithElement.
Variable E : Type.
Variable render_elem : RenderFn E.

Record StyledElement := mkStyledElement { element : E; style : Style }.

Definition new (element : E) (style : Style) : StyledElement := mkStyledElement element style.

(** [StyledElement::render]: [style.merge(self.style)], then the wrapped
    element's render. *)
Definition render (self : StyledElement) (context : Context) (area : Area) (style0 : Style)
  : result RenderResult * StyledElement * list Op :=
  let '(r, e', ops) := render_elem (element self) context area (style_and style0 (style self)) in
  (r, mkStyledElement e' (style self), ops).

End WithElement.

End StyledElement.

(** ** LinearLayout builders (src/elements.rs) *)

Module LinearLayoutBuilder.
Import LinearLayout.

Section WithElements.
Variable E : Type.

(** [LinearLayout::vertical] = [LinearLayout::new]. *)
Definition vertical : LinearLayout E := mkLinearLayout E [] 0.

(** [LinearLayout::push]: [self.elements.push(element)]. *)
Definition push (self : LinearLayout E) (element : E) : LinearLayout E :=
  mkLinearLayout E (elements E self ++ [element]) (render_idx E self).

End WithElements.

End LinearLayoutBuilder.

(** ** UnorderedList and OrderedList (src/elements.rs), over bullet points
    of one element type *)

(** The default bullet of [BulletPoint::new], ["–"] (U+2013), as its UTF-8
    bytes E2 80 93. *)
Definition en_dash : Str := map Ascii.ascii_of_nat [226; 128; 147]%nat.

Module UnorderedList.
Import Render.

Section WithElement.
Variable E : Type.
Variable render_elem : RenderFn E.

Record UnorderedList := mkUnorderedList {
  layout : LinearLayout.LinearLayout (BulletPoint.BulletPoint E);
  bullet : option Str
}.

Definition new : UnorderedList := mkUnorderedList (LinearLayoutBuilder.vertical _) None.

Definition with_bullet (b : Str) : UnorderedList :=
  mkUnorderedList (LinearLayoutBuilder.vertical _) (Some b).

(** [UnorderedList::push]: [BulletPoint::new] (bullet ["–"]), with
    [set_bullet(bullet.clone())] when the list has a bullet. *)
Definition push (self : UnorderedList) (element : E) : UnorderedList :=
  let point := match bullet self with
               | Some b => BulletPoint.new E element b
               | None => BulletPoint.new E element en_dash
               end in
  mkUnorderedList (LinearLayoutBuilder.push _ (layout self) point) (bullet self).

(** [UnorderedList::push_no_bullet]: [set_bullet("")]. *)
Definition push_no_bullet (self : UnorderedList) (element : E) : UnorderedList :=
  mkUnorderedList (LinearLayoutBuilder.push _ (layout self) (BulletPoint.new E element []))
    (bullet self).

(** [Extend::extend]: [push] for each element in order. *)
Definition extend (self : UnorderedList) (es : list E) : UnorderedList :=
  fold_left push es self.

Definition render (self : UnorderedList) (context : Context) (area : Area) (style : Style)
  : result RenderResult * UnorderedList * list Op :=
  let '(r, l', ops) :=
    LinearLayout.render _ (BulletPoint.render E render_elem) (layout self) context area style in
  (r, mkUnorderedList l' (bullet self), ops).

End WithElement.

End UnorderedList.

Module OrderedList.
Import Render.

(** [format!("{}", n)] for a [usize]: its decimal digits. A [usize] is
    taken to be 64 bits wide and is kept as an [N] below [2 ^ 64]. *)
Definition fmt_usize (n : N) : Str :=
  list_ascii_of_string (NilZero.string_of_uint (N.to_uint n)).

(** [n += 1] on a [usize] as a release build runs it: wrapping modulo
    [2 ^ 64]. A debug build panics instead where this wraps, so the two
    agree exactly when [n + 1 < 2 ^ 64]. *)
Definition usize_add1 (n : N) : N := N.modulo (n + 1) (2 ^ 64).

Section WithElement.
Variable E : Type.
Variable render_elem : RenderFn E.

Record OrderedList := mkOrderedList {
  layout : LinearLayout.LinearLayout (BulletPoint.BulletPoint E);
  number : N
}.

Definition with_start (start : N) : OrderedList :=
  mkOrderedList (LinearLayoutBuilder.vertical _) start.

Definition new : OrderedList := with_start 1.

(** [OrderedList::push]: bullet [format!("{}.", self.number)], then
    [self.number += 1] (see [usize_add1]). *)
Definition push (self : OrderedList) (element : E) : OrderedList :=
  let point := BulletPoint.new E element (fmt_usize (number self) ++ ["."%char]) in
  mkOrderedList (LinearLayoutBuilder.push _ (layout self) point) (usize_add1 (number self)).

Definition extend (self : OrderedList) (es : list E) : OrderedList :=
  fold_left push es self.

(** [FromIterator::from_iter]: [extend] on [Default::default()] = [new()]. *)
Definition from_iter (es : list E) : OrderedList := extend new es.

Definition render (self : OrderedList) (context : Context) (area : Area) (style : Style)
  : result RenderResult * OrderedList * list Op :=
  let '(r, l', ops) :=
    LinearLayout.render _ (BulletPoint.render E render_elem) (layout self) context area style in
  (r, mkOrderedList l' (number self), ops).

End WithElement.

End OrderedList.

(** ** FrameCellDecorator (src/elements.rs) *)

Module FrameCellDecorator.
Import Render.

Record FrameCellDecorator := mkFrameCellDecorator {
  inner : bool;
  outer : bool;
  cont : bool;
  line_style : LineStyle;
  num_columns : nat;
  num_rows : nat;
  last_row : option nat
}.

Definition with_line_style (inner outer cont : bool) (line_style : LineStyle)
  : FrameCellDecorator :=
  mkFrameCellDecorator inner outer cont line_style 0 0 None.

Definition print_left (self : FrameCellDecorator) (column : nat) : bool :=
  if Nat.eqb column 0 then outer self else inner self.

Definition print_right (self : FrameCellDecorator) (column : nat) : bool :=
  if Nat.eqb (column + 1) (num_columns self) then outer self else false.

Definition print_top (self : FrameCellDecorator) (row : nat) : bool :=
  if match last_row self with Some lr => Nat.ltb lr row | None => true end then
    if Nat.eqb row 0 then outer self else inner self
  else cont self.

Definition print_bottom (self : FrameCellDecorator) (row : nat) (has_more : bool) : bool :=
  if has_more then cont self
  else if Nat.eqb (row + 1) (num_rows self) then outer self
  else false.

(** [CellDecorator::set_table_size]. *)
Definition set_table_size (self : FrameCellDecorator) (nc nr : nat) : FrameCellDecorator :=
  mkFrameCellDecorator (inner self) (outer self) (cont self) (line_style self) nc nr
    (last_row self).

(** [CellDecorator::prepare_cell]. *)
Definition prepare_cell (self : FrameCellDecorator) (column row : nat) (area : Area) : Area :=
  let margin := thickness (line_style self) in
  add_margins area
    (trbl (if print_top self row then margin else 0)
          (if print_right self column then margin else 0)
          (if print_bottom self row false then margin else 0)
          (if print_left self column then margin else 0)).

(** [CellDecorator::decorate_cell]: the total height, the decorator's new
    state and the lines drawn, in the order top, right, bottom, left. *)
Definition decorate_cell (self : FrameCellDecorator) (column row : nat) (has_more : bool)
  (area : Area) (row_height : Mm) : Mm * FrameCellDecorator * list Op :=
  let print_top := print_top self row in
  let print_bottom := print_bottom self row has_more in
  let print_left := print_left self column in
  let print_right := print_right self column in
  let sz := area_size area in
  let t := thickness (line_style self) in
  let line_offset := t / 2 in
  let left := 0 in
  let right := width sz in
  let top := 0 in
  let bottom := row_height + (if print_bottom then t else 0) + (if print_top then t else 0) in
  let total0 := row_height in
  let total1 := if print_top then total0 + t else total0 in
  let top_ops := if print_top
                 then [draw_line area [mkPosition left (top + line_offset);
                                       mkPosition right (top + line_offset)] (line_style self)]
                 else [] in
  let right_ops := if print_right
                   then [draw_line area [mkPosition (right - line_offset) top;
                                         mkPosition (right - line_offset) bottom]
                           (line_style self)]
                   else [] in
  let total2 := if print_bottom then total1 + t else total1 in
  let bottom_ops := if print_bottom
                    then [draw_line area [mkPosition left (bottom - line_offset);
                                          mkPosition right (bottom - line_offset)]
                            (line_style self)]
                    else [] in
  let left_ops := if print_left
                  then [draw_line area [mkPosition (left + line_offset) top;
                                        mkPosition (left + line_offset) bottom]
                          (line_style self)]
                  else [] in
  let self' := if Nat.eqb (column + 1) (num_columns self)
               then mkFrameCellDecorator (inner self) (outer self) (cont self) (line_style self)
                      (num_columns self) (num_rows self) (Some row)
               else self in
  (total2, self', top_ops ++ right_ops ++ bottom_ops ++ left_ops).

End FrameCellDecorator.

(** ** The ReX backend calls on a [MathBlock] (src/math.rs) *)

Module MathBackend.
Import MathBatch.

(** A call of the [Backend] trait as the ReX renderer issues it. *)
Inductive BackendCall :=
| CallSymbol (pos_x pos_y : Q) (gid : Z) (font_size : Q) (ctx : GlyphFont)
| CallRule (pos_x pos_y w h : Q)
| CallBeginColor (r g b : Z)
| CallEndColor.

Definition call (self : MathBlock) (c : BackendCall) : MathBlock :=
  match c with
  | CallSymbol x y gid fs ctx => symbol self x y gid fs ctx
  | CallRule x y w h => rule self x y w h
  | CallBeginColor r g b => begin_color self r g b
  | CallEndColor => end_color self
  end.

(** A sequence of backend calls, in order. *)
Definition replay (self : MathBlock) (cs : list BackendCall) : MathBlock :=
  fold_left call cs self.

Definition is_symbol_call (c : BackendCall) : bool :=
  match c with CallSymbol _ _ _ _ _ => true | _ => false end.

Definition is_rule_call (c : BackendCall) : bool :=
  match c with CallRule _ _ _ _ => true | _ => false end.

Definition is_rule_op (op : MathOp) : bool :=
  match op with OpRule _ => true | OpTextSection _ => false end.

(** Every text section holds as many x offsets as glyph ids. *)
Definition balanced (l : list MathOp) : Prop :=
  Forall (fun sec => List.length (x_offsets sec) = List.length (glyph_ids sec)) (sections l).

(** The number of glyphs held by the text sections. *)
Definition glyph_count (l : list MathOp) : nat :=
  fold_right (fun sec n => (List.length (glyph_ids sec) + n)%nat) 0%nat (sections l).

End MathBackend.

(** ** Batching of glyph events *)

Module MathBatchFacts.
Import MathBatch.

(** No text section of [l] accepts a glyph at [y], font size [fs] and
    color [c]. *)
Definition accepts_none (l : list MathOp) (y fs : Q) (c : Color) : Prop :=
  forall sec, In (OpTextSection sec) l -> can_append sec y fs c = false.

End MathBatchFacts.

(** ** Justified spacing as the specification states it *)

Module JustifySpec.
Import Render Wrap Paragraph.

(** Width of the leading whitespace of a line's first word and of the
    trailing whitespace of its last word. *)
Definition leading_ws (fc : FontCache) (line : list StyledString) : Mm :=
  match line with
  | first :: _ => ss_width fc first - str_width (sstyle first) fc (trim_start (s first))
  | [] => 0
  end.

Definition trailing_ws (fc : FontCache) (line : list StyledString) : Mm :=
  match last_opt line with
  | Some lastw => ss_width fc lastw - str_width (sstyle lastw) fc (trim_end (s lastw))
  | None => 0
  end.

(** The extra inter-word spacing of a line: (available width - line width)
    / max(word count - 1, 1), divided by the font size; zero on the
    paragraph's final line and under any non-justified alignment.  The
    line width leaves out the leading whitespace of the first word always,
    and the trailing whitespace of the last word when [trim_spaces] is
    set. *)
Definition justified_extra (al : Alignment) (is_last : bool) (fc : FontCache)
  (available : Mm) (style : Style) (line : list StyledString) : Mm :=
  match al with
  | Justified trim_spaces =>
      if is_last then 0
      else
        let line_width := Qsum (map (ss_width fc) line) - leading_ws fc line
                          - (if trim_spaces then trailing_ws fc line else 0) in
        (available - line_width) / inject_Z (Z.of_nat (Nat.max (List.length line - 1) 1))
          / inject_Z (style_font_size style)
  | _ => 0
  end.

(** The same, with the leading whitespace of the first word left out only
    when [trim_spaces] is set, as the claim words it. *)
Definition justified_extra_trim_only (al : Alignment) (is_last : bool) (fc : FontCache)
  (available : Mm) (style : Style) (line : list StyledString) : Mm :=
  match al with
  | Justified trim_spaces =>
      if is_last then 0
      else
        let line_width := Qsum (map (ss_width fc) line)
                          - (if trim_spaces then leading_ws fc line + trailing_ws fc line
                             else 0) in
        (available - line_width) / inject_Z (Z.of_nat (Nat.max (List.length line - 1) 1))
          / inject_Z (style_font_size style)
  | _ => 0
  end.

End JustifySpec.

(** ** The characters a paragraph has still to print *)

Module ParagraphText.
Import Paragraph.

Definition chars (ws : list StyledString) : Str := List.concat (map s ws).

(** The characters not yet rendered: those of the input strings not yet
    split into words, then those of the word queue. *)
Definition pending_chars (p : Paragraph) : Str := chars (text p) ++ chars (words p).

(** At most one of [text] and the word queue is nonempty. *)
Definition queue_invariant (p : Paragraph) : Prop := text p = [] \/ words p = [].

End ParagraphText.

(** ** Concrete instances used by the examples *)

Module Instances.
Import Render.

(** A monospace font cache: a string is as wide as it has bytes; every
    line is 5 mm high with 4 mm high glyphs. *)
Definition fc0 : FontCache :=
  mkFontCache (fun _ t => inject_Z (Z.of_nat (List.length t))) (fun _ => mkMetrics 5 4).

Definition ctx0 : Context := mkContext fc0.

Definition area0 (w h : Mm) : Area := mkArea (mkPosition 0 0) (mkSize w h).

(** An element that is always done after one call, 5 mm high. *)
Definition done_elem : RenderFn unit :=
  fun u _ _ _ => (Ok (mkRenderResult (mkSize 0 5) false), u, []).

Definition str (x : string) : Str := list_ascii_of_string x.

(** A syntax collaborator that knows no language: every token lookup
    misses, every theme is found, and the line highlighter yields nothing. *)
Definition hl_no_syntax : CodeBlock.SyntaxHighlighter unit unit :=
  CodeBlock.mkSyntaxHighlighter unit unit (fun _ => None) (fun _ => Some tt).

Definition no_lines : unit -> unit -> list Str -> list (list (CodeBlock.SyntaxStyle * Str)) :=
  fun _ _ _ => [].

Definition code_unknown_lang : CodeBlock.CodeBlock :=
  CodeBlock.mkCodeBlock (str "ab") style_default false "nolang"%string (Some "base16"%string).

(** The paragraph " a b", justified without trimming. *)
Definition par_lead_space : Paragraph.Paragraph :=
  Paragraph.from_text [mkStyledString (str " a b") style_default] (Paragraph.Justified false).

Definition par_lead_space_lines : list (list StyledString * nat) :=
  Wrap.wrapper (Wrap.words (Paragraph.text par_lead_space)) ctx0 3.

Definition par_lead_space_self2 : Paragraph.Paragraph :=
  Paragraph.mkParagraph [] (Wrap.words (Paragraph.text par_lead_space)) true
    (Paragraph.Justified false).

(** "ab cd", justified and trimmed, rendered 3 mm wide: first into a
    6 mm high area, which takes one line, then into a 100 mm high one. *)
Definition par_two_pages : Paragraph.Paragraph :=
  Paragraph.from_text [mkStyledString (str "ab cd") style_default] (Paragraph.Justified true).

Definition two_pages_calls : list (Render.Context * Render.Area * Style) :=
  [(ctx0, area0 3 6, style_default); (ctx0, area0 3 100, style_default)].

Definition black : Color := Rgb 0 0 0.

(** A block holding one glyph at x = 0 mm, y = 0 mm, font size 10,
    advance 1 em. *)
Definition block_one_glyph : MathBatch.MathBlock :=
  MathBatch.push_glyph (MathBatch.new size_default) 0 0 1 10 black 1.

(** C5, failing input: a glyph with font size 20 at x = 1 px
    ([PX_TO_MM] mm) on the same line as the font-size-10 glyph. *)
Definition block_mixed_sizes : MathBatch.MathBlock :=
  MathBatch.push_glyph block_one_glyph MathBatch.PX_TO_MM 0 2 20 black 1.

Definition is_print_str (op : Op) : bool :=
  match op with PrintStr _ _ _ => true | _ => false end.

(** C8, failing input: a bullet point around the paragraph "item", first
    rendered into an area 1 mm high (less than the 4 mm glyph height), then
    into a fresh 100 mm area. *)
Definition bullet_item : BulletPoint.BulletPoint Paragraph.Paragraph :=
  BulletPoint.new Paragraph.Paragraph
    (Paragraph.from_text [mkStyledString (str "item") style_default] Paragraph.Left) (str "-").

Definition bullet_calls : list (Context * Area * Style) :=
  [(ctx0, area0 100 1, style_default); (ctx0, area0 100 100, style_default)].

End Instances.

(** ** Frame decorator helpers *)

Module FrameFacts.
Import Render FrameCellDecorator.

(** The height [decorate_cell] returns for row [row] under the decorator
    state [d]. *)
Definition framed_height (d : FrameCellDecorator) (row : nat) (hm : bool) (rh : Mm) : Mm :=
  if print_bottom d row hm
  then (if print_top d row then rh + thickness (line_style d) else rh) + thickness (line_style d)
  else if print_top d row then rh + thickness (line_style d) else rh.

(** A frame decorator with every kind of line switched off. *)
Definition frame_off (d : FrameCellDecorator) : Prop :=
  inner d = false /\ outer d = false /\ cont d = false.

End FrameFacts.

(** ** Concrete inputs for the properties of the wrappers and layouts *)

Module ExtraInstances.
Import Render Instances.

(** An element whose render call always fails. *)
Definition fail_elem : RenderFn unit :=
  fun u _ _ _ => (Err (mkError "cannot render" InvalidData), u, []).

(** An element that fills the area it is given and is then done. *)
Definition fill_elem : RenderFn unit :=
  fun u _ a _ => (Ok (mkRenderResult (area_size a) false), u, []).

(** A full frame with 1 mm lines around a table of two columns and one row. *)
Definition frame_2x1 : FrameCellDecorator.FrameCellDecorator :=
  FrameCellDecorator.set_table_size
    (FrameCellDecorator.with_line_style true true true (mkLineStyle 1)) 2 1.

Definition table_2x1 : TableLayout.TableLayout unit FrameCellDecorator.FrameCellDecorator :=
  TableLayout.mkTableLayout unit _ [1%nat; 1%nat] [[tt; tt]] 0 (Some frame_2x1).

(** A frame with every line switched off. *)
Definition frame_none : FrameCellDecorator.FrameCellDecorator :=
  FrameCellDecorator.with_line_style false false false (mkLineStyle 1).

(** The code "ab\ncd\nef" without syntax highlighting. *)
Definition code_three_lines : CodeBlock.CodeBlock :=
  CodeBlock.mkCodeBlock (str "ab" ++ [CodeBlock.newline] ++ str "cd" ++ [CodeBlock.newline]
                         ++ str "ef") style_default false "rust"%string None.

Definition glyph_font1 : MathBatch.GlyphFont := MathBatch.mkGlyphFont 1 1 1 1.

Definition backend_calls : list MathBackend.BackendCall :=
  [MathBackend.CallSymbol 0 0 1 10 glyph_font1; MathBackend.CallBeginColor 255 0 0;
   MathBackend.CallRule 0 5 10 1; MathBackend.CallSymbol 3 0 2 10 glyph_font1;
   MathBackend.CallEndColor].

End ExtraInstances.

(** * Theorems *)

(** ** PageBreak *)

(** C10: the first render call on a new [PageBreak] returns [has_more = true]
    with size (1 mm, 0 mm); every later call returns [has_more = false] with
    size zero, whatever context, area and style are passed. *)
Theorem pagebreak_requests_one_page {Ctx Area : Type} (c : Ctx) (a : Area) (st : Style)
  (rest : list (Ctx * Area * Style)) :
  PageBreak.render_calls PageBreak.new ((c, a, st) :: rest)
  = Ok (mkRenderResult (mkSize 1 0) true) :: repeat (Ok render_result_default) (List.length rest).
Proof.
  cbn [PageBreak.render_calls PageBreak.render PageBreak.new PageBreak.cont].
  f_equal.
  induction rest as [| [[c' a'] st'] rest IH]; [reflexivity |].
  cbn [PageBreak.render_calls PageBreak.render PageBreak.cont List.length repeat].
  now rewrite IH.
Qed.

(** ** TableLayout::push_row *)

Section TablePush.
Import TableLayout.

Lemma push_rows_fields (E D : Type) (t : TableLayout E D) (pushed : list (list E)) :
  snd (push_rows E D t pushed)
  = mkTableLayout E D (column_weights E D t)
      (rows E D t ++ filter (fun r => Nat.eqb (List.length r)
                                        (List.length (column_weights E D t))) pushed)
      (render_idx E D t) (cell_decorator E D t)
  /\ map is_ok (fst (push_rows E D t pushed))
     = map (fun r => Nat.eqb (List.length r) (List.length (column_weights E D t))) pushed.
Proof.
  revert t; induction pushed as [| row rest IH]; intros t.
  - destruct t; cbn; rewrite app_nil_r; auto.
  - cbn [push_rows filter map].
    unfold push_row at 1 2.
    destruct (Nat.eqb (List.length row) (List.length (column_weights E D t))) eqn:Hn.
    + destruct (IH (mkTableLayout E D (column_weights E D t) (rows E D t ++ [row])
                      (render_idx E D t) (cell_decorator E D t))) as [IH1 IH2].
      cbn [column_weights rows render_idx cell_decorator] in IH1, IH2.
      destruct (push_rows E D _ rest) as [rs t2] eqn:Hp; cbn in IH1, IH2 |- *.
      rewrite IH1, IH2, <- app_assoc. auto.
    + destruct (IH t) as [IH1 IH2].
      destruct (push_rows E D t rest) as [rs t2] eqn:Hp; cbn in IH1, IH2 |- *.
      rewrite IH1, IH2. auto.
Qed.

(** C2: [push_row] with a row whose length differs from the number of
    column weights returns an [InvalidData] error and leaves the table
    unchanged; with an equal length it appends the row and returns [Ok].
    Over any sequence of pushes, the table's rows (the only rows any later
    render pass reads) are exactly the accepted rows, in order: a rejected
    row never becomes part of the table. *)
Theorem table_push_row_shape (E D : Type) (t : TableLayout E D) (row : list E)
  (pushed : list (list E)) :
  match push_row E D t row with
  | (Ok _, t') =>
      List.length row = List.length (column_weights E D t)
      /\ t' = mkTableLayout E D (column_weights E D t) (rows E D t ++ [row])
                (render_idx E D t) (cell_decorator E D t)
  | (Err e, t') =>
      List.length row <> List.length (column_weights E D t)
      /\ err_kind e = InvalidData /\ t' = t
  end
  /\ snd (push_rows E D t pushed)
     = mkTableLayout E D (column_weights E D t)
         (rows E D t ++ filter (fun r => Nat.eqb (List.length r)
                                           (List.length (column_weights E D t))) pushed)
         (render_idx E D t) (cell_decorator E D t)
  /\ map is_ok (fst (push_rows E D t pushed))
     = map (fun r => Nat.eqb (List.length r) (List.length (column_weights E D t))) pushed.
Proof.
  split; [| apply push_rows_fields].
  unfold push_row.
  destruct (Nat.eqb (List.length row) (List.length (column_weights E D t))) eqn:Hn.
  - apply Nat.eqb_eq in Hn. auto.
  - apply Nat.eqb_neq in Hn. auto.
Qed.

End TablePush.

(** ** Math glyph batching *)

Section MathBatching.
Import MathBatch MathBatchFacts.

Lemma color_eqb_eq (c d : Color) : color_eqb c d = true <-> c = d.
Proof.
  destruct c as [r1 g1 b1], d as [r2 g2 b2]; cbn.
  rewrite !andb_true_iff, !Z.eqb_eq.
  split; [intros [[-> ->] ->]; reflexivity | intros H; injection H; auto].
Qed.

Lemma Qltb_iff (a b : Q) : Qltb a b = true <-> a < b.
Proof.
  unfold Qltb. rewrite negb_true_iff.
  split; intros H.
  - apply Qnot_le_lt. intros Hle. apply Qle_bool_iff in Hle. congruence.
  - destruct (Qle_bool b a) eqn:E; [| reflexivity].
    apply Qle_bool_iff in E. exfalso. apply (Qlt_not_le a b H E).
Qed.

Lemma update_matching_first (pre post : list MathOp) (sec : TextSection) (y fs : Q)
  (c : Color) (upd : TextSection -> TextSection) :
  accepts_none pre y fs c -> can_append sec y fs c = true ->
  update_matching_text_section (pre ++ OpTextSection sec :: post) y fs c upd
  = Some (pre ++ OpTextSection (upd sec) :: post).
Proof.
  intros Hpre Hsec. induction pre as [| op pre IH]; cbn.
  - now rewrite Hsec.
  - assert (IH' : update_matching_text_section (pre ++ OpTextSection sec :: post) y fs c upd
                  = Some (pre ++ OpTextSection (upd sec) :: post)).
    { apply IH. intros s' Hin. apply Hpre. now right. }
    destruct op as [s0 | r0]; cbn.
    + rewrite (Hpre s0 (or_introl eq_refl)). now rewrite IH'.
    + now rewrite IH'.
Qed.

Lemma update_matching_none (l : list MathOp) (y fs : Q) (c : Color)
  (upd : TextSection -> TextSection) :
  accepts_none l y fs c -> update_matching_text_section l y fs c upd = None.
Proof.
  intros H. induction l as [| op l IH]; cbn; [reflexivity |].
  assert (IH' : update_matching_text_section l y fs c upd = None).
  { apply IH. intros s' Hin. apply H. now right. }
  destruct op as [s0 | r0]; cbn.
  - rewrite (H s0 (or_introl eq_refl)). now rewrite IH'.
  - now rewrite IH'.
Qed.

(** C3 (the rule [push_glyph] and [can_append] implement): a glyph event
    joins the first batch of [ops()] that accepts it, and otherwise starts a
    new batch appended at the end, so batches appear in creation order.  A
    batch accepts an event only if their vertical origins differ by strictly
    less than [POSITIONING_ACCURACY] = 0.01 mm ([abs() <] in the source) and
    their colors are equal; a batch whose vertical origin differs by less
    than 0.01 mm and whose font size and color equal the event's accepts
    it. *)
Theorem glyph_batching_rule :
  (forall sec y fs c, can_append sec y fs c = true ->
     Qabs (y_origin sec - y) < POSITIONING_ACCURACY /\ color sec = c)
  /\ (forall sec y fs c, Qabs (y_origin sec - y) < POSITIONING_ACCURACY ->
        font_size sec == fs -> color sec = c -> can_append sec y fs c = true)
  /\ (forall mb x y gid fs adv pre sec post,
        math_ops mb = pre ++ OpTextSection sec :: post ->
        accepts_none pre y fs (current_color mb) ->
        can_append sec y fs (current_color mb) = true ->
        math_ops (push_glyph mb x y gid fs (current_color mb) adv)
        = pre ++ OpTextSection (append_glyph sec x gid fs adv) :: post)
  /\ (forall mb x y gid fs c adv,
        accepts_none (math_ops mb) y fs c ->
        math_ops (push_glyph mb x y gid fs c adv)
        = math_ops mb ++ [OpTextSection (mkTextSection y fs [mm_to_em x fs] [gid] c
                                           (mm_to_em x fs + adv))]).
Proof.
  split; [| split; [| split]].
  - intros sec y fs c H. unfold can_append in H.
    apply andb_true_iff in H as [H Hc]. apply andb_true_iff in H as [Hy _].
    split; [now apply Qltb_iff | now apply color_eqb_eq].
  - intros sec y fs c Hy Hfs Hc. unfold can_append.
    rewrite (proj2 (Qltb_iff _ _) Hy), (proj2 (color_eqb_eq _ _) Hc).
    rewrite andb_true_r. apply Qltb_iff. rewrite Hfs.
    setoid_replace (fs - fs) with 0 by ring. reflexivity.
  - intros mb x y gid fs adv pre sec post Hops Hpre Hsec.
    unfold push_glyph. rewrite Hops, update_matching_first by assumption.
    reflexivity.
  - intros mb x y gid fs c adv Hnone.
    unfold push_glyph. now rewrite update_matching_none.
Qed.

End MathBatching.

Section MathBatchingExamples.
Import MathBatch MathBatchFacts Instances.

(** C3: a second glyph at the first one's vertical origin, font size and
    color joins its batch (one batch, two glyphs), and a second glyph 1 mm
    lower starts a second batch after the first one. *)
Lemma glyph_batching_rule_witness :
  let sec1 := mkTextSection 0 10 [mm_to_em 0 10] [1%Z] black (mm_to_em 0 10 + 1) in
  math_ops (push_glyph block_one_glyph PX_TO_MM 0 2 10 black 1)
    = [] ++ OpTextSection (append_glyph sec1 PX_TO_MM 2 10 1) :: []
  /\ math_ops (push_glyph block_one_glyph 0 1 2 10 black 1)
    = math_ops block_one_glyph
      ++ [OpTextSection (mkTextSection 1 10 [mm_to_em 0 10] [2%Z] black (mm_to_em 0 10 + 1))].
Proof.
  intros sec1. split.
  - exact (proj1 (proj2 (proj2 glyph_batching_rule)) block_one_glyph PX_TO_MM 0 2%Z 10 1
             [] sec1 [] ltac:(vm_compute; reflexivity)
             ltac:(intros sec Hin; destruct Hin)
             ltac:(vm_compute; reflexivity)).
  - exact (proj2 (proj2 (proj2 glyph_batching_rule)) block_one_glyph 0 1 2%Z 10 black 1
             ltac:(intros sec Hin; vm_compute in Hin; destruct Hin as [Hs | []];
                   injection Hs as <-; vm_compute; reflexivity)).
Defined.

(** C3, failing input: a second glyph whose vertical origin differs from
    the first one's by exactly 0.01 mm ([POSITIONING_ACCURACY], documented
    as the maximum difference within a batch), with equal font size and
    color: [can_append] refuses it and it starts a second batch. *)
Lemma glyph_batching_boundary_counterexample :
  let sec1 := mkTextSection 0 10 [mm_to_em 0 10] [1%Z] black (mm_to_em 0 10 + 1) in
  math_ops block_one_glyph = [OpTextSection sec1]
  /\ Qabs (y_origin sec1 - (1 # 100)) == POSITIONING_ACCURACY
  /\ font_size sec1 == 10
  /\ color sec1 = black
  /\ can_append sec1 (1 # 100) 10 black = false
  /\ List.length (sections (math_ops (push_glyph block_one_glyph 0 (1 # 100) 2 10 black 1)))
     = 2%nat.
Proof. intros sec1. repeat split; vm_compute; reflexivity. Qed.

(** C5 (code evaluated at the failing input): [can_append] tests
    [section.font_size - font_size < EPSILON] without [abs], so the
    font-size-20 glyph joins the font-size-10 batch, and its stored offset
    is its x position in EM at font size 20 (1/20) minus the previous right
    edge (0 + 1), i.e. -19/20, not the value at the batch's font size,
    1/10 - 1 = -9/10. *)
Theorem glyph_offset_font_size_slip :
  match math_ops block_mixed_sizes with
  | [OpTextSection sec] =>
      font_size sec == 10 /\ glyph_ids sec = [1%Z; 2%Z]
      /\ nth 1 (x_offsets sec) 0 == mm_to_em PX_TO_MM 20 - (mm_to_em 0 10 + 1)
      /\ nth 1 (x_offsets sec) 0 == -19 # 20
      /\ ~ nth 1 (x_offsets sec) 0 == mm_to_em PX_TO_MM (font_size sec) - (mm_to_em 0 10 + 1)
  | _ => False
  end.
Proof.
  vm_compute.
  split; [reflexivity |]. split; [reflexivity |]. split; [reflexivity |].
  split; [reflexivity |]. discriminate.
Qed.

End MathBatchingExamples.

(** ** FramedElement *)

Section FramedElementProofs.
Import Render FramedElement.
Variable E : Type.
Variable f : RenderFn E.

Lemma framed_render_step (self : FramedElement E) (ctx : Context) (area : Area) (st : Style) :
  match render E f self ctx area st with
  | (Ok r, self', ops) =>
      exists ea inner_r ek' inner_ops fa,
        f (element E self) ctx ea st = (Ok inner_r, ek', inner_ops)
        /\ ops = inner_ops ++ (if is_first E self then [top_border fa (line_style E self)] else [])
                 ++ [left_border fa (line_style E self); right_border fa (line_style E self)]
                 ++ (if has_more inner_r then [] else [bottom_border fa (line_style E self)])
        /\ has_more r = has_more inner_r
        /\ width (size r) = width (area_size area)
        /\ height (size r) == height (size inner_r)
                              + (if is_first E self then thickness (line_style E self) else 0)
                              + (if has_more inner_r then 0 else thickness (line_style E self))
        /\ self' = mkFramedElement E ek' false (line_style E self)
  | (Err _, self', _) => is_first E self' = is_first E self
                         /\ line_style E self' = line_style E self
  end.
Proof.
  destruct self as [el first ls]. unfold render. cbn [element is_first line_style].
  set (ea := if first then _ else _).
  destruct (f el ctx ea st) as [[[r0 | err] e'] iops] eqn:Hf; [| cbn; auto].
  destruct r0 as [[w0 h0] hm]. subst ea.
  destruct first, hm; cbn [negb has_more size height width];
    (do 5 eexists; split; [exact Hf |];
     split; [reflexivity | split; [reflexivity | split; [reflexivity | split; [cbn; ring | reflexivity]]]]).
Qed.

Lemma framed_run_states (self : FramedElement E) (calls : list (Context * Area * Style))
  (k : nat) (r : RenderResult) (ops : list Op) :
  nth_error (fst (run (render E f) self calls)) k = Some (Ok r, ops) ->
  exists ctx area st self_k self',
    nth_error calls k = Some (ctx, area, st)
    /\ is_first E self_k = (if Nat.eqb k 0 then is_first E self else false)
    /\ line_style E self_k = line_style E self
    /\ render E f self_k ctx area st = (Ok r, self', ops).
Proof.
  revert self k. induction calls as [| [[c a] st] rest IH]; intros self k H;
    [destruct k; discriminate |].
  cbn [run] in H.
  pose proof (framed_render_step self c a st) as Hs.
  destruct (render E f self c a st) as [[[r1 | err] self1] ops1] eqn:Hr.
  - destruct (run (render E f) self1 rest) as [outs final] eqn:Hrun.
    destruct Hs as (ea & ir & ek' & iops & fa & _ & _ & _ & _ & _ & Hself1).
    destruct k as [| k]; cbn in H.
    + injection H as -> ->. exists c, a, st, self, self1. cbn. repeat split; auto.
    + specialize (IH self1 k). rewrite Hrun in IH. cbn in IH.
      destruct (IH H) as (c' & a' & st' & sk & s' & Hn & Hf & Hl & Hrk).
      exists c', a', st', sk, s'. subst self1. cbn in Hf, Hl.
      split; [exact Hn |]. split; [| split; [exact Hl | exact Hrk]].
      rewrite Hf. now destruct (Nat.eqb k 0).
  - destruct k as [| [| k]]; cbn in H; discriminate.
Qed.

(** C6: over the successive render calls of a new framed element, the call
    with index k (k = 0 the first) draws the inner element's operations,
    then the top border exactly when k = 0, the left and right borders on
    every call, and the bottom border exactly when the inner element's
    result has [has_more = false]; it reports the inner [has_more], the
    full area width, and the inner height plus one line thickness on the
    first call and one more when the inner element is done. *)
Theorem framed_element_borders (e : E) (ls : LineStyle) (calls : list (Context * Area * Style))
  (k : nat) (r : RenderResult) (ops : list Op) :
  nth_error (fst (run (render E f) (with_line_style E e ls) calls)) k = Some (Ok r, ops) ->
  exists ctx area st ek ea inner_r ek' inner_ops fa,
    nth_error calls k = Some (ctx, area, st)
    /\ f ek ctx ea st = (Ok inner_r, ek', inner_ops)
    /\ ops = inner_ops ++ (if Nat.eqb k 0 then [top_border fa ls] else [])
             ++ [left_border fa ls; right_border fa ls]
             ++ (if has_more inner_r then [] else [bottom_border fa ls])
    /\ has_more r = has_more inner_r
    /\ width (size r) = width (area_size area)
    /\ height (size r) == height (size inner_r) + (if Nat.eqb k 0 then thickness ls else 0)
                          + (if has_more inner_r then 0 else thickness ls).
Proof.
  intros H.
  destruct (framed_run_states _ calls k r ops H)
    as (ctx & area & st & sk & s' & Hn & Hfirst & Hls & Hr).
  pose proof (framed_render_step sk ctx area st) as Hs. rewrite Hr in Hs.
  destruct Hs as (ea & ir & ek' & iops & fa & Hf & Hops & Hhm & Hw & Hh & _).
  cbn in Hfirst, Hls. rewrite Hfirst, Hls in *.
  exists ctx, area, st, (element E sk), ea, ir, ek', iops, fa.
  destruct (Nat.eqb k 0); repeat split; auto.
Qed.

End FramedElementProofs.

Section FramedElementExamples.
Import Render FramedElement Instances.

(** C6: one render call of a new frame around a 5 mm element. *)
Lemma framed_element_borders_witness :
  exists r ops,
    nth_error (fst (run (render unit done_elem) (with_line_style unit tt (mkLineStyle 1))
                      [(ctx0, area0 100 100, style_default)])) 0 = Some (Ok r, ops)
    /\ exists ctx area st ek ea inner_r ek' inner_ops fa,
      nth_error [(ctx0, area0 100 100, style_default)] 0 = Some (ctx, area, st)
      /\ done_elem ek ctx ea st = (Ok inner_r, ek', inner_ops)
      /\ ops = inner_ops ++ (if Nat.eqb 0 0 then [top_border fa (mkLineStyle 1)] else [])
               ++ [left_border fa (mkLineStyle 1); right_border fa (mkLineStyle 1)]
               ++ (if has_more inner_r then [] else [bottom_border fa (mkLineStyle 1)])
      /\ has_more r = has_more inner_r
      /\ width (size r) = width (area_size area)
      /\ height (size r) == height (size inner_r) + (if Nat.eqb 0 0 then thickness (mkLineStyle 1) else 0)
                            + (if has_more inner_r then 0 else thickness (mkLineStyle 1)).
Proof.
  do 2 eexists. split; [reflexivity |].
  apply (framed_element_borders unit done_elem tt (mkLineStyle 1)
           [(ctx0, area0 100 100, style_default)] 0).
  reflexivity.
Defined.

End FramedElementExamples.

Section BulletPointExamples.
Import Render Instances.

(** C8 (code evaluated at the failing input): on the first call the
    paragraph reports [has_more = true] and [print_str] of the bullet
    returns [Ok(false)] (it does not fit), yet [bullet_rendered] is set;
    the second call prints the item but no bullet, so the bullet is never
    printed. *)
Theorem bullet_never_printed_when_first_call_cannot_place :
  let '(outs, final) := run (BulletPoint.render Paragraph.Paragraph Paragraph.render)
                            bullet_item bullet_calls in
  map (fun '(r, _) => match r with Ok rr => Some (has_more rr) | Err _ => None end) outs
    = [Some true; Some false]
  /\ existsb is_print_str (flat_map snd outs) = false
  /\ emitted (flat_map snd outs) = str "item"
  /\ BulletPoint.bullet_rendered Paragraph.Paragraph final = true.
Proof. vm_compute. repeat split. Qed.

End BulletPointExamples.

(** ** LinearLayout *)

Lemma replace_nth_app {A} (prefix rest : list A) (c x : A) :
  replace_nth (prefix ++ c :: rest) (List.length prefix) x = prefix ++ x :: rest.
Proof. induction prefix as [| y prefix IH]; cbn; [reflexivity | now rewrite IH]. Qed.

Lemma nth_error_app_length {A} (prefix rest : list A) (c : A) :
  nth_error (prefix ++ c :: rest) (List.length prefix) = Some c.
Proof. induction prefix as [| y prefix IH]; cbn; auto. Qed.

Section LinearLayoutProofs.
Import Render LinearLayout.
Variable E : Type.
Variable f : RenderFn E.

Lemma render_loop_stack_spec (pending prefix : list E) (fuel : nat) (ctx : Context)
  (area : Area) (st : Style) (res : RenderResult) :
  (List.length pending <= fuel)%nat ->
  render_loop E f fuel ctx area st
    (mkLinearLayout E (prefix ++ pending) (List.length prefix)) res
  = (let '(rs, pending', n, ops) := stack_spec E f pending ctx area st (size res) in
     (outcome_result rs, mkLinearLayout E (prefix ++ pending') (List.length prefix + n), ops)).
Proof.
  revert prefix fuel area res.
  induction pending as [| c rest IH]; intros prefix fuel area res Hfuel.
  - cbn [stack_spec]. rewrite app_nil_r, Nat.add_0_r.
    destruct fuel as [| fuel]; cbn [render_loop elements render_idx];
      rewrite Nat.ltb_irrefl; [reflexivity |].
    now rewrite andb_false_r.
  - destruct fuel as [| fuel]; [cbn in Hfuel; lia |].
    cbn [render_loop elements render_idx stack_spec].
    assert (Hlt : Nat.ltb (List.length prefix) (List.length (prefix ++ c :: rest)) = true).
    { apply Nat.ltb_lt. rewrite length_app. cbn. lia. }
    rewrite Hlt, andb_true_r, nth_error_app_length.
    unfold Qltb. destruct (Qle_bool (height (area_size area)) 0); cbn [negb].
    + cbn beta iota. now rewrite Nat.add_0_r.
    + destruct (f c ctx area st) as [[[er | err] c'] ops] eqn:Hf.
      * rewrite replace_nth_app.
        destruct (has_more er); [cbn beta iota; now rewrite Nat.add_0_r |].
        cbn [elements].
        replace (prefix ++ c' :: rest) with ((prefix ++ [c']) ++ rest)
          by now rewrite <- app_assoc.
        replace (S (List.length prefix)) with (List.length (prefix ++ [c']))
          by (rewrite length_app; cbn; lia).
        rewrite IH by (cbn in Hfuel; lia).
        cbn [size].
        destruct (stack_spec E f rest ctx
                    (add_offset area (mkPosition 0 (height (size er)))) st
                    (stack_vertical (size res) (size er)))
          as [[[rs rest'] n] ops2].
        rewrite <- app_assoc, length_app. cbn.
        f_equal. f_equal. f_equal. lia.
      * rewrite replace_nth_app. cbn beta iota. now rewrite Nat.add_0_r.
Qed.

(** C7: [LinearLayout::render] behaves as the claim's sequential stack run
    on the children from its resume cursor on: children are rendered in
    order into the shrinking area; the call stops with [has_more = true]
    when a child reports [has_more = true] (the cursor stays on that child)
    or when the remaining height has reached zero with children pending,
    and otherwise reports [has_more = false]; the reported size is the fold
    of the children's sizes with [stack_vertical] (width: maximum, height:
    sum), starting from the zero size. *)
Theorem linear_layout_render_stack (L : LinearLayout E) (ctx : Context) (area : Area)
  (st : Style) :
  render E f L ctx area st
  = (let '(rs, pending', n, ops) :=
       stack_spec E f (skipn (render_idx E L) (elements E L)) ctx area st size_default in
     (outcome_result rs,
      mkLinearLayout E (firstn (render_idx E L) (elements E L) ++ pending')
        (render_idx E L + n), ops))
  /\ (forall a b : Size, stack_vertical a b = mkSize (Qmax (width a) (width b))
                                                    (height a + height b)).
Proof.
  split; [| reflexivity].
  destruct L as [l idx]. unfold render. cbn [elements render_idx].
  destruct (Nat.le_gt_cases idx (List.length l)) as [Hle | Hgt].
  - pose proof (firstn_skipn idx l) as Hsplit.
    assert (Hlen : List.length (firstn idx l) = idx) by (apply firstn_length_le; lia).
    pose proof (render_loop_stack_spec (skipn idx l) (firstn idx l)
                  (List.length l - idx) ctx area st render_result_default) as H.
    rewrite Hsplit, Hlen in H. apply H.
    rewrite length_skipn. lia.
  - rewrite skipn_all2 by lia. rewrite firstn_all2 by lia.
    replace (List.length l - idx)%nat with 0%nat by lia.
    cbn [render_loop stack_spec outcome_result elements render_idx size render_result_default].
    rewrite app_nil_r, Nat.add_0_r.
    replace (Nat.ltb idx (List.length l)) with false by (symmetry; apply Nat.ltb_ge; lia).
    reflexivity.
Qed.

End LinearLayoutProofs.

(** ** CodeBlock and SyntaxHighlighter *)

Section CodeBlockProofs.
Import CodeBlock.
Variable Syntax Theme : Type.
Variable highlight_lines : Syntax -> Theme -> list Str -> list (list (SyntaxStyle * Str)).

Lemma char_count_app (a b : Str) : char_count (a ++ b) = (char_count a + char_count b)%nat.
Proof. unfold char_count. now rewrite filter_app, length_app. Qed.

Lemma char_count_le (t : Str) : (char_count t <= List.length t)%nat.
Proof.
  unfold char_count. induction t as [| b t IH]; cbn; [lia |].
  destruct (negb (is_utf8_continuation b)); cbn; lia.
Qed.

Lemma char_count_ascii (t : Str) :
  Forall (fun b => is_ascii7 b = true) t -> char_count t = List.length t.
Proof.
  unfold char_count. induction 1 as [| b t Hb _ IH]; [reflexivity |].
  cbn [filter]. unfold is_ascii7 in Hb. unfold is_utf8_continuation at 1.
  rewrite (proj2 (Nat.leb_gt 128 (nat_of_ascii b))) by (apply Nat.ltb_lt; exact Hb).
  cbn [andb negb List.length]. now rewrite IH.
Qed.

Lemma strip_cr_char_count (l : Str) : (char_count (strip_cr l) <= char_count l)%nat.
Proof.
  unfold strip_cr. destruct (rev l) as [| c rest] eqn:Hr; [lia |].
  destruct (ascii_eqb c carriage_return); [| lia].
  rewrite <- (rev_involutive l), Hr. cbn [rev]. rewrite char_count_app. lia.
Qed.

(** The characters of all lines, each line's count summed. *)
Lemma lines_go_chars_total (t acc : Str) :
  (fold_right (fun l k => (char_count l + k)%nat) 0%nat (lines_go t acc)
   <= char_count acc + char_count t)%nat.
Proof.
  revert acc. induction t as [| c t IH]; intros acc; cbn [lines_go].
  - destruct acc as [| a acc']; cbn [fold_right]; [lia |].
    pose proof (strip_cr_char_count (a :: acc')).
    change (char_count []) with 0%nat. lia.
  - assert (Hct : char_count (c :: t) = (char_count [c] + char_count t)%nat)
      by (now rewrite <- char_count_app).
    destruct (ascii_eqb c newline).
    + cbn [fold_right]. pose proof (strip_cr_char_count acc). pose proof (IH []).
      change (char_count []) with 0%nat in *. lia.
    + pose proof (IH (acc ++ [c])) as H. rewrite char_count_app in H. lia.
Qed.

Lemma lines_chars_total (t : Str) :
  (fold_right (fun l k => (char_count l + k)%nat) 0%nat (lines t) <= char_count t)%nat.
Proof. apply lines_go_chars_total. Qed.

(** The count [render_code_lines] returns is at most the characters of all
    its lines. *)
Lemma render_code_lines_bound (fc : Render.FontCache) (area : Render.Area)
  (ls : list (list StyledString)) (res : RenderResult) (rc : nat) :
  (snd (fst (render_code_lines fc area ls res rc))
   <= rc + fold_right (fun line k =>
                         (fold_right (fun x k' => (char_count (s x) + k')%nat) 0%nat line + k)%nat)
             0%nat ls)%nat.
Proof.
  revert area res rc. induction ls as [| line ls IH]; intros area res rc; cbn [render_code_lines].
  - cbn. lia.
  - destruct (Render.fits _ _ _); [| cbn; lia].
    match goal with |- context [render_code_lines fc ?a' ls ?r' ?rc'] =>
      pose proof (IH a' r' rc') as IH' end.
    destruct (render_code_lines _ _ _ _ _) as [[r m] ops]. cbn [fst snd] in IH' |- *.
    cbn [fold_right]. lia.
Qed.

Lemma dummy_highlighting_chars (cb : CodeBlock) (st : Style) :
  fold_right (fun line k =>
                (fold_right (fun x k' => (char_count (s x) + k')%nat) 0%nat line + k)%nat)
    0%nat (dummy_highlighting cb st)
  = fold_right (fun l k => (char_count l + k)%nat) 0%nat (lines (code cb)).
Proof.
  unfold dummy_highlighting. induction (lines (code cb)) as [| l L IH]; [reflexivity |].
  cbn [map fold_right s]. rewrite IH. lia.
Qed.

Lemma drain_to_ascii (t : Str) (n : nat) :
  Forall (fun b => is_ascii7 b = true) t -> (n <= List.length t)%nat ->
  drain_to t n = Some (skipn n t).
Proof.
  intros Ht Hn. unfold drain_to, is_char_boundary.
  rewrite (proj2 (Nat.leb_le _ _) Hn). cbn [andb].
  destruct (Nat.eqb n 0); [reflexivity |].
  destruct (nth_error t n) as [b |] eqn:Hb.
  - assert (Hasc : is_ascii7 b = true)
      by (rewrite Forall_forall in Ht; apply Ht; eapply nth_error_In; exact Hb).
    unfold is_ascii7 in Hasc. unfold is_utf8_continuation.
    rewrite (proj2 (Nat.leb_gt 128 (nat_of_ascii b))) by (apply Nat.ltb_lt; exact Hasc).
    reflexivity.
  - apply nth_error_None in Hb. rewrite (proj2 (Nat.eqb_eq n (List.length t))) by lia.
    reflexivity.
Qed.

(** C9: [SyntaxHighlighter::highlight] returns [None] exactly when the
    language token or the theme name is not found.  When the code block has
    no theme, or has one and the highlighter's lookup misses, the lines
    [CodeBlock::render] works on are [dummy_highlighting] with the block's
    base style (one span per line of the code, each in the base style), and
    [render] never returns an error: it renders those lines and returns
    [Ok].  Its only other outcome is the panic of the final [drain], a
    character count used as a byte index, which happens on every path and
    never for ASCII code: for ASCII code [render] always returns [Ok]. *)
Theorem codeblock_lookup_miss_fallback (cb : CodeBlock) (hl : option (SyntaxHighlighter Syntax Theme))
  (ctx : Render.Context) (area : Render.Area) (st : Style)
  (Hfallback : theme cb = None
               \/ exists h th, hl = Some h /\ theme cb = Some th
                               /\ highlight Syntax Theme highlight_lines h (code cb) (language cb) th
                                    (base_style cb) (only_regular_font cb) = None) :
  (forall (h : SyntaxHighlighter Syntax Theme) (c : Str) (lang th : string) (bs : Style)
     (orf : bool),
     highlight Syntax Theme highlight_lines h c lang th bs orf = None
     <-> find_syntax_by_token Syntax Theme h lang = None \/ themes_get Syntax Theme h th = None)
  /\ highlighted_lines Syntax Theme highlight_lines cb hl
     = Some (dummy_highlighting cb (base_style cb))
  /\ Forall (fun line => exists t, line = [mkStyledString t (base_style cb)])
       (dummy_highlighting cb (base_style cb))
  /\ List.length (dummy_highlighting cb (base_style cb)) = List.length (lines (code cb))
  /\ render Syntax Theme highlight_lines cb ctx hl area st
     = match code cb with
       | [] => Some (Ok render_result_default, cb, [])
       | _ =>
           let '(res, n, ops) :=
             render_code_lines (Render.font_cache ctx) area
               (dummy_highlighting cb (base_style cb)) render_result_default 0 in
           match drain_to (code cb) n with
           | None => None
           | Some rest =>
               Some (Ok res, mkCodeBlock rest (base_style cb) (only_regular_font cb)
                               (language cb) (theme cb), ops)
           end
       end
  /\ (Forall (fun b => is_ascii7 b = true) (code cb) ->
      exists res n ops,
        render Syntax Theme highlight_lines cb ctx hl area st
        = Some (Ok res, mkCodeBlock (skipn n (code cb)) (base_style cb) (only_regular_font cb)
                          (language cb) (theme cb), ops)).
Proof.
  assert (Hlines : highlighted_lines Syntax Theme highlight_lines cb hl
                   = Some (dummy_highlighting cb (base_style cb))).
  { unfold highlighted_lines.
    destruct Hfallback as [Hnone | (h & th & -> & Hth & Hmiss)].
    - now rewrite Hnone.
    - now rewrite Hth, Hmiss. }
  assert (Hrender : render Syntax Theme highlight_lines cb ctx hl area st
     = match code cb with
       | [] => Some (Ok render_result_default, cb, [])
       | _ =>
           let '(res, n, ops) :=
             render_code_lines (Render.font_cache ctx) area
               (dummy_highlighting cb (base_style cb)) render_result_default 0 in
           match drain_to (code cb) n with
           | None => None
           | Some rest =>
               Some (Ok res, mkCodeBlock rest (base_style cb) (only_regular_font cb)
                               (language cb) (theme cb), ops)
           end
       end).
  { unfold render. destruct (code cb); [reflexivity |].
    rewrite Hlines.
    now destruct (render_code_lines _ _ _ _ _) as [[res n] ops]. }
  split; [| split; [exact Hlines | split; [| split; [| split]]]].
  - intros h c lang th bs orf. unfold highlight.
    destruct (find_syntax_by_token Syntax Theme h lang);
      [destruct (themes_get Syntax Theme h th) |]; split; intros H; auto.
    + discriminate.
    + destruct H; discriminate.
  - unfold dummy_highlighting. apply Forall_map, Forall_forall. intros t _. now exists t.
  - unfold dummy_highlighting. apply length_map.
  - exact Hrender.
  - intros Hascii. rewrite Hrender.
    destruct cb as [c bs orf lang th]; cbn [code base_style only_regular_font language theme]
      in *.
    destruct c as [| b0 c'].
    + exists render_result_default, 0%nat, []. reflexivity.
    + pose proof (render_code_lines_bound (Render.font_cache ctx) area
                    (dummy_highlighting (mkCodeBlock (b0 :: c') bs orf lang th) bs)
                    render_result_default 0) as Hb.
      rewrite dummy_highlighting_chars in Hb. cbn [code] in Hb.
      pose proof (lines_chars_total (b0 :: c')) as Hl.
      pose proof (char_count_le (b0 :: c')) as Hc.
      destruct (render_code_lines _ _ _ _ _) as [[res n] ops].
      cbn [fst snd] in Hb.
      rewrite (drain_to_ascii (b0 :: c') n Hascii) by lia.
      now exists res, n, ops.
Qed.

End CodeBlockProofs.

Lemma codeblock_lookup_miss_fallback_witness :
  CodeBlock.highlighted_lines unit unit Instances.no_lines Instances.code_unknown_lang
    (Some Instances.hl_no_syntax)
  = Some (CodeBlock.dummy_highlighting Instances.code_unknown_lang
            (CodeBlock.base_style Instances.code_unknown_lang)).
Proof.
  apply (codeblock_lookup_miss_fallback unit unit Instances.no_lines Instances.code_unknown_lang
           (Some Instances.hl_no_syntax) Instances.ctx0 (Instances.area0 100 100) style_default).
  right. exists Instances.hl_no_syntax, "base16"%string. split; [reflexivity | split; reflexivity].
Defined.

(** ** Paragraph: justified spacing *)

Section JustifiedSpacing.
Import Render Wrap Paragraph JustifySpec.

Lemma extra_word_spacing_spec (al : Alignment) (has_next : bool) (fc : FontCache)
  (aw W : Mm) (st : Style) (line : list StyledString) :
  aw == W ->
  extra_word_spacing al has_next fc aw st line (Qsum (map (ss_width fc) line))
  == justified_extra al (negb has_next) fc W st line.
Proof.
  intros Haw.
  destruct al as [| | | trim]; try reflexivity.
  destruct has_next; cbn [negb extra_word_spacing justified_extra]; [| reflexivity].
  unfold leading_ws, trailing_ws.
  destruct line as [| first rest]; destruct trim;
    try (match goal with |- context [last_opt ?l] => destruct (last_opt l) end);
    rewrite Haw;
    (apply Qdiv_comp; [apply Qdiv_comp; [ring | reflexivity] | reflexivity]).
Qed.

Lemma segment_ops_xoff (fc : FontCache) (sa : Area) (pos : Position) (m : Metrics)
  (extra : Mm) (line : list StyledString) :
  Forall (fun op => match op with PrintStrXoff _ _ _ x => x = extra | _ => True end)
    (segment_ops fc sa pos m extra line).
Proof.
  revert sa. induction line as [| w rest IH]; intros sa; cbn [segment_ops]; [constructor |].
  constructor; [reflexivity |].
  apply Forall_app. split; [| apply IH].
  destruct (is_strikethrough (sstyle w)); repeat constructor.
Qed.

Lemma render_lines_extra (p : Paragraph) (ctx : Context) (st : Style) (W : Mm)
  (lines : list (list StyledString * nat)) :
  forall (area : Area) (res : RenderResult) (n0 k : nat) (rl : RenderedLine),
    width (area_size area) == W ->
    nth_error (snd (render_lines p ctx area st lines res n0)) k = Some rl ->
    (exists delta, nth_error lines k = Some (rl_line rl, delta))
    /\ rl_extra rl == justified_extra (alignment p) (Nat.eqb (S k) (List.length lines))
                        (font_cache ctx) W st (rl_line rl).
Proof.
  induction lines as [| [line delta] next IH]; intros area res n0 k rl HW Hk.
  - destruct k; discriminate.
  - cbn [render_lines] in Hk.
    destruct (fits _ _ _); [| destruct k; discriminate].
    destruct (render_lines p ctx _ st next _ _) as [[r n] rls] eqn:Hrest.
    destruct k as [| k].
    + cbn in Hk. injection Hk as <-. cbn [rl_line rl_extra].
      split; [now exists delta |].
      rewrite (extra_word_spacing_spec _ _ _ _ W _ _ HW).
      now destruct next.
    + cbn [snd nth_error] in Hk.
      assert (Hk' : nth_error (snd (render_lines p ctx
                      (add_offset area (mkPosition 0 (line_height (fold_left metrics_max
                         (map (fun x => style_metrics (sstyle x) (font_cache ctx)) line)
                         metrics_default))))
                      st next
                      (mkRenderResult
                         (stack_vertical (size res)
                            (mkSize (Qsum (map (ss_width (font_cache ctx)) line))
                               (line_height (fold_left metrics_max
                                  (map (fun x => style_metrics (sstyle x) (font_cache ctx)) line)
                                  metrics_default))))
                         (has_more res))
                      (n0 + segments_len line - delta))) k = Some rl)
        by now rewrite Hrest.
      apply IH in Hk'; [exact Hk' |].
      cbn [add_offset area_size width px]. rewrite HW. ring.
Qed.

(** C4 (corrected): in the line loop of [Paragraph::render], the line
    placed [k]-th is the [k]-th line of the wrap of the pending words, and
    its extra word spacing, which every [print_str_xoff] of the line
    receives, is [justified_extra]: for [Justified trim_spaces] and a line
    that is not the last wrapped line (the paragraph's final line),
    (area width - line width) / max(word count - 1, 1) / font size, where
    the line width leaves out the leading whitespace of the first word
    whatever [trim_spaces] is, and the trailing whitespace of the last word
    when [trim_spaces] is set; zero on the final line and for every other
    alignment. *)
Theorem justified_spacing_per_line (p : Paragraph) (ctx : Context) (area : Area) (st : Style)
  (lines : list (list StyledString * nat)) (res : RenderResult) (n0 k : nat)
  (rl : RenderedLine)
  (Hk : nth_error (snd (render_lines p ctx area st lines res n0)) k = Some rl) :
  (exists delta, nth_error lines k = Some (rl_line rl, delta))
  /\ rl_extra rl == justified_extra (alignment p) (Nat.eqb (S k) (List.length lines))
                      (font_cache ctx) (width (area_size area)) st (rl_line rl)
  /\ Forall (fun op => match op with PrintStrXoff _ _ _ x => x = rl_extra rl | _ => True end)
       (line_ops (font_cache ctx) rl).
Proof.
  destruct (render_lines_extra p ctx st (width (area_size area)) lines area res n0 k rl
              (Qeq_refl _) Hk) as [Hline Hextra].
  split; [exact Hline | split; [exact Hextra |]].
  apply segment_ops_xoff.
Qed.

End JustifiedSpacing.

Lemma justified_spacing_per_line_witness :
  exists rl,
    nth_error (snd (Paragraph.render_lines Instances.par_lead_space_self2 Instances.ctx0
                      (Instances.area0 3 100) style_default Instances.par_lead_space_lines
                      render_result_default 0)) 0 = Some rl
    /\ (exists delta, nth_error Instances.par_lead_space_lines 0 = Some (Paragraph.rl_line rl, delta))
    /\ Paragraph.rl_extra rl
       == JustifySpec.justified_extra (Paragraph.Justified false)
            (Nat.eqb 1 (List.length Instances.par_lead_space_lines))
            (Render.font_cache Instances.ctx0) 3 style_default (Paragraph.rl_line rl)
    /\ Forall (fun op => match op with
                         | Render.PrintStrXoff _ _ _ x => x = Paragraph.rl_extra rl
                         | _ => True end)
         (Paragraph.line_ops (Render.font_cache Instances.ctx0) rl).
Proof.
  eexists. split; [reflexivity |].
  apply (justified_spacing_per_line Instances.par_lead_space_self2 Instances.ctx0
           (Instances.area0 3 100) style_default Instances.par_lead_space_lines
           render_result_default 0 0).
  reflexivity.
Defined.

(** C4 counterexample: the paragraph " a b", justified with [trim_spaces]
    unset, rendered 3 mm wide in the monospace instance: its first line is
    [" "; "a "], not its last, and [Paragraph::render] prints it with extra
    spacing 1/12, because the leading space of the first word is left out of
    the line width although [trim_spaces] is unset; the reading in which
    whitespace is left out only when [trim_spaces] is set gives 0. *)
Lemma justified_spacing_leading_space_counterexample :
  exists pos st rest,
    snd (Paragraph.render Instances.par_lead_space Instances.ctx0 (Instances.area0 3 100)
           style_default)
    = Render.PrintStrXoff pos st (Instances.str " ") (1 # 12) :: rest
    /\ nth_error Instances.par_lead_space_lines 0
       = Some ([mkStyledString (Instances.str " ") style_default;
                mkStyledString (Instances.str "a ") style_default], 0%nat)
    /\ List.length Instances.par_lead_space_lines = 2%nat
    /\ JustifySpec.justified_extra_trim_only (Paragraph.Justified false) false
         (Render.font_cache Instances.ctx0) 3 style_default
         [mkStyledString (Instances.str " ") style_default;
          mkStyledString (Instances.str "a ") style_default] == 0.
Proof.
  do 3 eexists. split; [vm_compute; reflexivity |].
  split; [vm_compute; reflexivity |].
  split; [vm_compute; reflexivity |].
  vm_compute. reflexivity.
Qed.

(** ** Paragraph: every character printed exactly once *)

Section ParagraphTextProofs.
Import Render Wrap Paragraph ParagraphText.

Lemma chars_app (a b : list StyledString) : chars (a ++ b) = chars a ++ chars b.
Proof. unfold chars. now rewrite map_app, concat_app. Qed.

Lemma emitted_app (a b : list Op) : emitted (a ++ b) = emitted a ++ emitted b.
Proof. unfold emitted. apply flat_map_app. Qed.

Lemma split_words_concat (t acc : Str) : List.concat (split_words t acc) = acc ++ t.
Proof.
  revert acc. induction t as [| c t IH]; intros acc; cbn [split_words].
  - destruct acc; cbn; [reflexivity | now rewrite app_nil_r].
  - destruct (is_whitespace c); cbn [List.concat];
      rewrite IH; [| ]; now rewrite <- app_assoc.
Qed.

Lemma words_chars (t : list StyledString) : chars (Wrap.words t) = chars t.
Proof.
  induction t as [| w t IH]; [reflexivity |].
  unfold Wrap.words in *. cbn [flat_map]. rewrite chars_app, IH.
  unfold chars at 1 3. cbn [map List.concat]. f_equal.
  rewrite map_map. cbn [s]. rewrite map_id. apply split_words_concat.
Qed.

Lemma wrap_go_partition (fc : FontCache) (W : Mm) (ws buf : list StyledString) (x : Mm) :
  List.concat (map fst (wrap_go fc W ws buf x)) = buf ++ ws
  /\ Forall (fun l => snd l = 0%nat) (wrap_go fc W ws buf x).
Proof.
  revert buf x. induction ws as [| w rest IH]; intros buf x; cbn [wrap_go].
  - destruct buf; cbn; [split; constructor |].
    split; [now rewrite !app_nil_r | repeat constructor].
  - destruct buf as [| b bs].
    + destruct (IH [w] (ss_width fc w)) as [H1 H2]. now split.
    + destruct (Qltb W (x + ss_width fc w)).
      * destruct (IH [w] (ss_width fc w)) as [H1 H2].
        cbn [map List.concat fst]. rewrite H1. split; [reflexivity | now constructor].
      * destruct (IH ((b :: bs) ++ [w]) (x + ss_width fc w)) as [H1 H2].
        rewrite H1, <- app_assoc. now split.
Qed.

Lemma segments_len_chars (line : list StyledString) :
  segments_len line = List.length (chars line).
Proof.
  induction line as [| w rest IH]; [reflexivity |].
  cbn [segments_len fold_right]. fold (segments_len rest). rewrite IH.
  unfold chars. cbn [map List.concat]. now rewrite length_app.
Qed.

Lemma emitted_segment_ops (fc : FontCache) (sa : Area) (pos : Position) (m : Metrics)
  (extra : Mm) (line : list StyledString) :
  emitted (segment_ops fc sa pos m extra line) = chars line.
Proof.
  revert sa. induction line as [| w rest IH]; intros sa; [reflexivity |].
  cbn [segment_ops]. change (PrintStrXoff pos (sstyle w) (s w) extra :: ?l)
    with ([PrintStrXoff pos (sstyle w) (s w) extra] ++ l).
  rewrite !emitted_app, IH.
  unfold chars. cbn [map List.concat].
  destruct (is_strikethrough (sstyle w)); cbn; now rewrite ?app_nil_r.
Qed.

Lemma emitted_lines (fc : FontCache) (rls : list RenderedLine) :
  emitted (flat_map (line_ops fc) rls) = chars (List.concat (map rl_line rls)).
Proof.
  induction rls as [| rl rls IH]; [reflexivity |].
  cbn [flat_map map List.concat]. rewrite emitted_app, chars_app, IH.
  unfold line_ops. now rewrite emitted_segment_ops.
Qed.

Lemma prune_chars (n : nat) (ws : list StyledString) :
  chars (prune n ws) = skipn n (chars ws).
Proof.
  revert n. induction ws as [| w rest IH]; intros n.
  - destruct n; reflexivity.
  - destruct n as [| n']; [reflexivity |].
    cbn [prune]. unfold chars at 2. cbn [map List.concat]. fold (chars rest).
    rewrite skipn_app.
    destruct (Nat.leb (List.length (s w)) (S n')) eqn:Hle.
    + apply Nat.leb_le in Hle. rewrite IH, (skipn_all2 (s w)) by exact Hle. reflexivity.
    + apply Nat.leb_gt in Hle. unfold chars at 1. cbn [map List.concat s sstyle].
      fold (chars rest). now replace (S n' - List.length (s w))%nat with 0%nat by lia.
Qed.

Lemma render_lines_placed (p : Paragraph) (ctx : Context) (st : Style)
  (lines : list (list StyledString * nat)) :
  Forall (fun l => snd l = 0%nat) lines ->
  forall (area : Area) (res : RenderResult) (n0 : nat),
    let '(r, n, rls) := render_lines p ctx area st lines res n0 in
    exists m, map rl_line rls = map fst (firstn m lines)
      /\ n = (n0 + List.length (chars (List.concat (map rl_line rls))))%nat
      /\ (has_more r = false -> m = List.length lines).
Proof.
  intros Hd. induction lines as [| [line delta] next IH]; intros area res n0.
  - cbn [render_lines]. exists 0%nat. split; [reflexivity | split; [cbn; lia |]].
    reflexivity.
  - inversion Hd as [| ? ? Hdelta Hnext]; subst. cbn [snd] in Hdelta. subst delta.
    cbn [render_lines].
    destruct (fits _ _ _).
    + specialize (IH Hnext
        (add_offset area (mkPosition 0 (line_height (fold_left metrics_max
           (map (fun x => style_metrics (sstyle x) (font_cache ctx)) line) metrics_default))))
        (mkRenderResult
           (stack_vertical (size res)
              (mkSize (Qsum (map (ss_width (font_cache ctx)) line))
                 (line_height (fold_left metrics_max
                    (map (fun x => style_metrics (sstyle x) (font_cache ctx)) line)
                    metrics_default))))
           (has_more res))
        (n0 + segments_len line - 0)%nat).
      destruct (render_lines p ctx _ st next _ _) as [[r n] rls].
      destruct IH as (m & Hmap & Hn & Hm).
      exists (S m). split; [cbn [map firstn fst]; now rewrite Hmap |].
      split.
      * cbn [map List.concat rl_line]. rewrite chars_app, length_app, Hn, segments_len_chars. lia.
      * intros Hr. cbn [List.length]. now rewrite (Hm Hr).
    + exists 0%nat. split; [reflexivity |]. split; [cbn; lia |]. discriminate.
Qed.

Lemma placed_chars (ws : list StyledString) (lines : list (list StyledString * nat))
  (rls : list RenderedLine) (m n : nat) :
  List.concat (map fst lines) = [] ++ ws ->
  map rl_line rls = map fst (firstn m lines) ->
  n = List.length (chars (List.concat (map rl_line rls))) ->
  chars (List.concat (map rl_line rls)) ++ [] ++ skipn n (chars ws) = chars ws
  /\ (m = List.length lines -> [] ++ skipn n (chars ws) = []).
Proof.
  intros Hpart Hmap ->. cbn [app] in *. subst ws. rewrite Hmap.
  assert (Hsplit : chars (List.concat (map fst lines))
                   = chars (List.concat (map fst (firstn m lines)))
                     ++ chars (List.concat (map fst (skipn m lines))))
    by now rewrite <- chars_app, <- concat_app, <- map_app, firstn_skipn.
  rewrite Hsplit, skipn_app, skipn_all, Nat.sub_diag.
  cbn [skipn app]. split; [reflexivity |].
  intros ->. now rewrite (skipn_all lines).
Qed.

Lemma apply_style_props (p : Paragraph) (st : Style) :
  Paragraph.words (apply_style p st) = Paragraph.words p
  /\ chars (text (apply_style p st)) = chars (text p)
  /\ (text (apply_style p st) = [] <-> text p = [])
  /\ alignment (apply_style p st) = alignment p.
Proof.
  unfold apply_style. destruct (negb (style_applied p)); cbn [Paragraph.words text alignment];
    [| tauto].
  split; [reflexivity | split; [| split; [| reflexivity]]].
  - unfold chars. now rewrite map_map.
  - split; intros H; [now apply map_eq_nil in H | now rewrite H].
Qed.

Lemma paragraph_render_step (p : Paragraph) (ctx : Context) (area : Area) (st : Style) :
  queue_invariant p ->
  let '(r, p', ops) := Paragraph.render p ctx area st in
  (exists rr, r = Ok rr /\ (has_more rr = false -> pending_chars p' = []))
  /\ emitted ops ++ pending_chars p' = pending_chars p
  /\ queue_invariant p'.
Proof.
  intros Hinv. unfold Paragraph.render.
  destruct (apply_style_props p st) as (Hw & Hc & Ht & _).
  assert (Hpend : pending_chars (apply_style p st) = pending_chars p)
    by (unfold pending_chars; now rewrite Hw, Hc).
  assert (Hinv1 : queue_invariant (apply_style p st))
    by (unfold queue_invariant in *; rewrite Hw, Ht; exact Hinv).
  generalize dependent (apply_style p st). intros self1 Hw Hc Ht Hpend Hinv1.
  rewrite <- Hpend. clear Hw Hc Ht Hpend Hinv.
  (* the word queue the wrapper reads and the paragraph's text afterwards *)
  set (self2 := match Paragraph.words self1 with
                | [] => mkParagraph [] (Wrap.words (text self1)) (style_applied self1)
                          (alignment self1)
                | _ => self1
                end).
  assert (Htext2 : text self2 = []).
  { subst self2. destruct (Paragraph.words self1) eqn:E; [reflexivity |].
    destruct Hinv1 as [H | H]; [exact H | congruence]. }
  assert (Hchars2 : chars (Paragraph.words self2) = pending_chars self1).
  { subst self2. unfold pending_chars.
    destruct (Paragraph.words self1) eqn:E; cbn [Paragraph.words].
    - rewrite words_chars. unfold chars at 3. cbn. now rewrite app_nil_r.
    - destruct Hinv1 as [H | H]; [| congruence]. now rewrite H, E. }
  assert (Hempty : Paragraph.words self1 = [] -> text self1 = [] ->
                   pending_chars self1 = []).
  { intros H1 H2. unfold pending_chars. now rewrite H1, H2. }
  destruct (Paragraph.words self1) eqn:Hw1; destruct (text self1) eqn:Ht1.
  1: { split; [exists render_result_default; split; [reflexivity | intros _; now apply Hempty] |].
       split; [cbn; now rewrite Hempty | left; exact Ht1]. }
  all: cbn [has_overflowed negb].
  all: destruct (wrap_go_partition (font_cache ctx) (width (area_size area))
                   (Paragraph.words self2) [] 0) as [Hpart Hdelta].
  all: pose proof (render_lines_placed self2 ctx st
                     (wrapper (Paragraph.words self2) ctx (width (area_size area))) Hdelta
                     area render_result_default 0) as Hplaced.
  all: destruct (render_lines self2 ctx area st _ render_result_default 0) as [[res n] rls].
  all: destruct Hplaced as (m & Hmap & Hn & Hm).
  all: cbn [Nat.add] in Hn.
  all: destruct (placed_chars (Paragraph.words self2)
                   (wrapper (Paragraph.words self2) ctx (width (area_size area)))
                   rls m n Hpart Hmap Hn) as [Hc Hz].
  all: split; [exists res; split; [reflexivity |] | split; [| left; exact Htext2]].
  all: try (intros Hr; unfold pending_chars; cbn [text Paragraph.words];
            rewrite Htext2, prune_chars; exact (Hz (Hm Hr))).
  all: unfold pending_chars at 1; cbn [text Paragraph.words];
       rewrite Htext2, prune_chars, emitted_lines, <- Hchars2; exact Hc.
Qed.

Lemma run_empty (p : Paragraph) (calls : list (Context * Area * Style)) outs final :
  run Paragraph.render p calls = (outs, final) -> outs = [] -> final = p.
Proof.
  destruct calls as [| [[c a] st] rest]; cbn [run].
  - now intros [= _ ->].
  - destruct (Paragraph.render p c a st) as [[r p'] ops]. destruct r.
    + destruct (run Paragraph.render p' rest). intros [= <- _]. discriminate.
    + intros [= <- _]. discriminate.
Qed.

Lemma run_pending (calls : list (Context * Area * Style)) :
  forall p, queue_invariant p ->
    let '(outs, final) := run Paragraph.render p calls in
    emitted (flat_map snd outs) ++ pending_chars final = pending_chars p
    /\ (forall rr ops, nth_error outs (pred (List.length outs)) = Some (Ok rr, ops) ->
                       has_more rr = false -> pending_chars final = []).
Proof.
  induction calls as [| [[c a] st] rest IH]; intros p Hinv; cbn [run].
  - split; [reflexivity |]. intros rr ops H. destruct (pred 0); discriminate.
  - pose proof (paragraph_render_step p c a st Hinv) as Hstep.
    destruct (Paragraph.render p c a st) as [[r p'] ops].
    destruct Hstep as ((rr0 & -> & Hdone0) & Hem & Hinv').
    specialize (IH p' Hinv').
    destruct (run Paragraph.render p' rest) as [outs final] eqn:Hrun.
    destruct IH as [Hem' Hdone'].
    split.
    + cbn [flat_map snd]. rewrite emitted_app, <- app_assoc. fold (flat_map (@snd (result RenderResult) (list Op)) outs).
      now rewrite Hem', Hem.
    + intros rr ops' Hnth Hr.
      destruct outs as [| o outs'].
      * rewrite (run_empty p' rest [] final Hrun eq_refl).
        cbn in Hnth. injection Hnth as -> _. now apply Hdone0.
      * apply (Hdone' rr ops'); [| exact Hr].
        cbn [List.length pred] in *. exact Hnth.
Qed.

(** C1: render calls on a paragraph built from input strings [ts], with
    any alignment, continued until a call returns [has_more = false]:
    the characters the calls print, in order, are the characters of [ts],
    each exactly once.  On each call, the characters printed followed by
    the characters still pending make up those pending before it; the word
    queue is pruned by dropping the rendered number of characters from its
    front, splitting a word in place (its style kept) when only part of it
    was printed. *)
Theorem paragraph_emits_text_once (ts : list StyledString) (al : Alignment)
  (calls : list (Context * Area * Style)) (rr : RenderResult) (ops_last : list Op)
  (Hlast : nth_error (fst (run Paragraph.render (from_text ts al) calls))
             (pred (List.length (fst (run Paragraph.render (from_text ts al) calls))))
           = Some (Ok rr, ops_last))
  (Hdone : has_more rr = false) :
  emitted (flat_map snd (fst (run Paragraph.render (from_text ts al) calls))) = chars ts
  /\ (forall p ctx area st, queue_invariant p ->
        let '(_, p', ops) := Paragraph.render p ctx area st in
        emitted ops ++ pending_chars p' = pending_chars p)
  /\ (forall (n : nat) (w : StyledString) (rest : list StyledString),
        (n < List.length (s w))%nat ->
        prune n (w :: rest) = mkStyledString (skipn n (s w)) (sstyle w) :: rest)
  /\ (forall (n : nat) (ws : list StyledString), chars (prune n ws) = skipn n (chars ws)).
Proof.
  split; [| split; [| split]].
  - assert (Hinv : queue_invariant (from_text ts al)) by now right.
    pose proof (run_pending calls (from_text ts al) Hinv) as Hrun.
    destruct (run Paragraph.render (from_text ts al) calls) as [outs final].
    destruct Hrun as [Hem Hfinal]. cbn [fst] in *.
    rewrite (Hfinal rr ops_last Hlast Hdone), app_nil_r in Hem. rewrite Hem.
    unfold pending_chars. cbn. now rewrite app_nil_r.
  - intros p ctx area st Hinv.
    pose proof (paragraph_render_step p ctx area st Hinv) as Hstep.
    destruct (Paragraph.render p ctx area st) as [[r p'] ops].
    now destruct Hstep as (_ & Hem & _).
  - intros n w rest Hn. destruct n as [| n'].
    + destruct w as [t st']. cbn [prune skipn]. reflexivity.
    + cbn [prune]. replace (Nat.leb (List.length (s w)) (S n')) with false
        by (symmetry; apply Nat.leb_gt; lia). reflexivity.
  - apply prune_chars.
Qed.

End ParagraphTextProofs.

Lemma paragraph_emits_text_once_witness :
  exists rr ops_last,
    nth_error (fst (Render.run Paragraph.render Instances.par_two_pages Instances.two_pages_calls))
      (pred (List.length (fst (Render.run Paragraph.render Instances.par_two_pages
                                 Instances.two_pages_calls))))
    = Some (Ok rr, ops_last)
    /\ has_more rr = false
    /\ List.length (fst (Render.run Paragraph.render Instances.par_two_pages
                           Instances.two_pages_calls)) = 2%nat
    /\ Render.emitted (flat_map snd (fst (Render.run Paragraph.render Instances.par_two_pages
                                           Instances.two_pages_calls)))
       = ParagraphText.chars [mkStyledString (Instances.str "ab cd") style_default].
Proof.
  do 2 eexists. split; [reflexivity |]. split; [reflexivity |].
  split; [reflexivity |].
  refine (proj1 (paragraph_emits_text_once [mkStyledString (Instances.str "ab cd") style_default]
                   (Paragraph.Justified true) Instances.two_pages_calls _ _ _ _));
    reflexivity.
Defined.


(** * Further properties of the element wrappers, lists, tables, code blocks and the math backend *)


Section BreakProofs.
Import Render.

(** One [Break::render] call: [Ok], [has_more = false], nothing drawn, and
    the reported height plus the lines left times the line height is the
    lines before times the line height. *)
Lemma break_render_step (b : Break.Break) (c : Context) (a : Area) (st : Style) (lh : Q)
  (Hlh : ~ lh == 0) (Hst : style_line_height st (font_cache c) == lh) :
  exists rr b', Break.render b c a st = (Ok rr, b', []) /\ has_more rr = false
                /\ height (size rr) + Break.lines b' * lh == Break.lines b * lh.
Proof.
  unfold Break.render.
  destruct (Qle_bool (Break.lines b) 0).
  - do 2 eexists; split; [reflexivity |]. split; [reflexivity |]. cbn. ring.
  - destruct (Qltb _ _).
    + do 2 eexists; split; [reflexivity |]. split; [reflexivity |]. cbn.
      rewrite Hst. ring.
    + do 2 eexists; split; [reflexivity |]. split; [reflexivity |]. cbn.
      rewrite Hst. field. exact Hlh.
Qed.

(** X2: rendering a [Break] over a sequence of calls whose line height is
    a fixed nonzero [lh] never fails, never reports [has_more] and draws
    nothing; the heights it reports plus the lines still left, in line
    heights, add up to the lines it started with. *)
Theorem break_height_accounting (b : Break.Break) (calls : list (Context * Area * Style))
  (lh : Q) (Hlh : ~ lh == 0)
  (Hcalls : Forall (fun c => style_line_height (snd c) (font_cache (fst (fst c))) == lh) calls) :
  Forall (fun out => exists rr, fst out = Ok rr /\ has_more rr = false /\ snd out = [])
    (fst (run Break.render b calls))
  /\ Break.consumed (fst (run Break.render b calls))
     + Break.lines (snd (run Break.render b calls)) * lh == Break.lines b * lh.
Proof.
  revert b. induction calls as [| [[c a] st] rest IH]; intros b.
  - cbn. split; [constructor | ring].
  - inversion Hcalls as [| ? ? Hst Hrest]; subst. cbn in Hst.
    destruct (break_render_step b c a st lh Hlh Hst) as (rr & b' & Hr & Hhm & Hacc).
    cbn [run]. rewrite Hr.
    destruct (run Break.render b' rest) as [outs final] eqn:Hrun.
    specialize (IH Hrest b'). rewrite Hrun in IH. cbn in IH |- *.
    destruct IH as [IHf IHacc].
    split.
    + constructor; [exists rr; auto | exact IHf].
    + rewrite <- Hacc, <- IHacc. ring.
Qed.

End BreakProofs.


Lemma Qle_bool_false (a b : Q) : b < a -> Qle_bool a b = false.
Proof.
  intros H. destruct (Qle_bool a b) eqn:E; [| reflexivity].
  apply Qle_bool_iff in E. exfalso. apply (Qlt_not_le b a); assumption.
Qed.

Lemma Qle_bool_true (a b : Q) : a <= b -> Qle_bool a b = true.
Proof. intros H. now apply Qle_bool_iff. Qed.

Section BreakLayout.
Import Render.

(** X1: a [Break] taller than the area left in a vertical layout fills the
    area exactly, keeps the lines it could not place (a positive number)
    for the next page, and stops the layout there. *)
Theorem break_cut_at_area_end (b : Break.Break) (rest : list Break.Break) (ctx : Context)
  (area : Area) (st : Style)
  (Hlh : 0 < style_line_height st (font_cache ctx))
  (Hh : 0 < height (area_size area))
  (Hover : height (area_size area) < style_line_height st (font_cache ctx) * Break.lines b) :
  LinearLayout.render _ Break.render (LinearLayout.mkLinearLayout _ (b :: rest) 0) ctx area st
  = (Ok (mkRenderResult (stack_vertical size_default (mkSize 0 (height (area_size area))))
           (Nat.ltb 1 (S (List.length rest)))),
     LinearLayout.mkLinearLayout _
       (Break.mkBreak (Break.lines b
                       - height (area_size area) / style_line_height st (font_cache ctx)) :: rest) 1,
     [])
  /\ 0 < Break.lines b - height (area_size area) / style_line_height st (font_cache ctx).
Proof.
  set (lh := style_line_height st (font_cache ctx)) in *.
  set (h := height (area_size area)) in *.
  assert (HL : 0 < Break.lines b).
  { apply Qnot_le_lt. intros HL.
    assert (H : lh * Break.lines b <= 0).
    { rewrite Qmult_comm, <- (Qmult_0_l lh).
      apply Qmult_le_compat_r; [exact HL | apply Qlt_le_weak, Hlh]. } apply (Qlt_irrefl 0). apply (Qlt_trans _ h); [exact Hh |].
    apply (Qlt_le_trans _ _ _ Hover H). }
  split.
  - unfold LinearLayout.render. cbn [List.length LinearLayout.elements LinearLayout.render_idx].
    replace (S (List.length rest) - 0)%nat with (S (List.length rest)) by lia.
    cbn [LinearLayout.render_loop LinearLayout.render_idx LinearLayout.elements nth_error List.length].
    fold h. unfold Render.Qltb at 1. rewrite (Qle_bool_false h 0 Hh). cbn [negb andb Nat.ltb Nat.leb].
    unfold Break.render. rewrite (Qle_bool_false _ 0 HL).
    fold lh. fold h. unfold Render.Qltb. rewrite (Qle_bool_true h (lh * Break.lines b)) by (apply Qlt_le_weak, Hover).
    cbn [negb replace_nth size has_more height area_size add_offset Render.area_size].
    destruct (List.length rest) as [| n] eqn:Hn.
    + cbn [LinearLayout.render_loop LinearLayout.render_idx LinearLayout.elements].
      cbn [replace_nth List.length size has_more render_result_default]. now rewrite Hn.
    + cbn [LinearLayout.render_loop LinearLayout.render_idx LinearLayout.elements
           add_offset area_size height px py Render.origin].
      fold h. unfold Render.Qltb.
      rewrite (Qle_bool_true (h - h) 0).
      * cbn [replace_nth List.length size has_more render_result_default negb andb].
        now rewrite Hn.
      * unfold Qminus. rewrite Qplus_opp_r. apply Qle_refl.
  - assert (Hdiv : h / lh < Break.lines b).
    { apply Qlt_shift_div_r; [exact Hlh |]. rewrite Qmult_comm. exact Hover. }
    apply Qlt_minus_iff in Hdiv. exact Hdiv.
Qed.

End BreakLayout.


Section WrapperProofs.
Import Render.
Variable E : Type.
Variable f : RenderFn E.

(** X3: when the wrapped element fails on the area and style the wrapper
    gives it, [FramedElement], [BulletPoint], [PaddedElement] and
    [StyledElement] return its error and its drawing operations unchanged,
    draw nothing of their own and keep their own settings. *)
Theorem wrappers_propagate_inner_error (x : E) (ctx : Context) (area : Area) (st : Style) :
  (forall (first : bool) (ls : LineStyle) x' e ops_in,
     let t := thickness ls in
     let element_area := if first then add_margins (add_margins area (trbl 0 t t t)) (trbl t 0 0 0)
                         else add_margins area (trbl 0 t t t) in
     f x ctx element_area st = (Err e, x', ops_in) ->
     FramedElement.render E f (FramedElement.mkFramedElement E x first ls) ctx area st
     = (Err e, FramedElement.mkFramedElement E x' first ls, ops_in))
  /\ (forall (ind sp : Mm) (b : Str) (br : bool) x' e ops_in,
        f x ctx (add_offset area (mkPosition ind 0)) st = (Err e, x', ops_in) ->
        BulletPoint.render E f (BulletPoint.mkBulletPoint E x ind sp b br) ctx area st
        = (Err e, BulletPoint.mkBulletPoint E x' ind sp b br, ops_in))
  /\ (forall (pt pr pb pl : Mm) x' e ops_in,
        f x ctx (add_margins area (trbl pt pr 0 pl)) st = (Err e, x', ops_in) ->
        PaddedElement.render E f (PaddedElement.mkPaddedElement E x (trbl pt pr pb pl)) ctx area st
        = (Err e, PaddedElement.mkPaddedElement E x' (trbl pt pr pb pl), ops_in))
  /\ (forall (st0 : Style) x' e ops_in,
        f x ctx area (style_and st st0) = (Err e, x', ops_in) ->
        StyledElement.render E f (StyledElement.mkStyledElement E x st0) ctx area st
        = (Err e, StyledElement.mkStyledElement E x' st0, ops_in)).
Proof.
  split; [| split; [| split]].
  - intros first ls x' e ops_in t element_area Hinner. subst t element_area.
    unfold FramedElement.render. cbn [FramedElement.element FramedElement.is_first
      FramedElement.line_style].
    destruct first; cbn zeta; now rewrite Hinner.
  - intros ind sp b br x' e ops_in Hinner.
    unfold BulletPoint.render. cbn [BulletPoint.element BulletPoint.indent]. now rewrite Hinner.
  - intros pt pr pb pl x' e ops_in Hinner.
    unfold PaddedElement.render. cbn [PaddedElement.element PaddedElement.padding trbl].
    now rewrite Hinner.
  - intros st0 x' e ops_in Hinner.
    unfold StyledElement.render. cbn [StyledElement.element StyledElement.style].
    now rewrite Hinner.
Qed.

(** X4: [PaddedElement] does not take the bottom padding off the area it
    gives the wrapped element, but adds it to the reported height: an inner
    element that fills its area makes the padded element report the area's
    height plus the bottom padding. *)
Theorem padded_bottom_padding_not_reserved (pe : PaddedElement.PaddedElement E)
  (ctx : Context) (area : Area) (st : Style) (t r b l : Mm) (rr : RenderResult) (e' : E)
  (ops : list Op)
  (Hpad : PaddedElement.padding E pe = (t, r, b, l))
  (Hinner : f (PaddedElement.element E pe) ctx (add_margins area (trbl t r 0 l)) st
            = (Ok rr, e', ops))
  (Hfill : height (size rr) == height (area_size (add_margins area (trbl t r 0 l)))) :
  exists rr', PaddedElement.render E f pe ctx area st
              = (Ok rr', PaddedElement.mkPaddedElement E e' (PaddedElement.padding E pe), ops)
    /\ height (size rr') == height (area_size area) + b
    /\ width (size rr') == width (size rr) + (l + r)
    /\ has_more rr' = has_more rr.
Proof.
  unfold PaddedElement.render. rewrite Hpad. cbn beta iota. rewrite Hinner.
  eexists. split; [reflexivity |]. cbn [size height width has_more].
  split; [| split; reflexivity].
  rewrite Hfill. cbn. ring.
Qed.

End WrapperProofs.

Section LinearLayoutEdges.
Import Render LinearLayout.
Variable E : Type.
Variable f : RenderFn E.

(** X5: a vertical [LinearLayout] whose elements are all rendered, or that
    is given an area with no height left, draws nothing, reports size zero,
    keeps its state and reports [has_more] exactly when elements remain. *)
Theorem linear_layout_idle_render (self : LinearLayout E) (ctx : Context) (area : Area)
  (st : Style)
  (Hstop : (List.length (elements E self) <= render_idx E self)%nat
           \/ height (area_size area) <= 0) :
  LinearLayout.render E f self ctx area st
  = (Ok (mkRenderResult size_default
           (Nat.ltb (render_idx E self) (List.length (elements E self)))), self, []).
Proof.
  unfold LinearLayout.render.
  destruct (List.length (elements E self) - render_idx E self)%nat as [| n] eqn:Hn;
    [reflexivity |].
  cbn [render_loop].
  destruct Hstop as [Hle | Hh]; [lia |].
  unfold Render.Qltb.
  rewrite (proj2 (Qle_bool_iff _ _) Hh). reflexivity.
Qed.

End LinearLayoutEdges.


(** [fmt_usize] can be read back: its digits denote the number. *)
Lemma fmt_usize_decode (n : N) :
  option_map N.of_uint
    (NilZero.uint_of_string (string_of_list_ascii (OrderedList.fmt_usize n))) = Some n.
Proof.
  unfold OrderedList.fmt_usize. rewrite string_of_list_ascii_of_string.
  destruct (Decimal.uint_eq_dec (N.to_uint n) Decimal.Nil) as [Hnil | Hnil].
  - pose proof (DecimalN.Unsigned.of_to n) as Hn. rewrite Hnil in Hn |- *. cbn in Hn |- *.
    now subst n.
  - rewrite (NilZero.usu _ Hnil). cbn. now rewrite DecimalN.Unsigned.of_to.
Qed.

Lemma fmt_usize_inj (n m : N) : OrderedList.fmt_usize n = OrderedList.fmt_usize m -> n = m.
Proof.
  intros H. pose proof (fmt_usize_decode n) as Hn. rewrite H, fmt_usize_decode in Hn.
  now inversion Hn.
Qed.

Lemma NoDup_map_injective {A B : Type} (g : A -> B) (l : list A) :
  (forall x y, g x = g y -> x = y) -> NoDup l -> NoDup (map g l).
Proof.
  intros Hg Hl. induction Hl as [| x l Hx Hl IH]; cbn; constructor; [| exact IH].
  intros Hin. apply in_map_iff in Hin as (y & Hy & Hyl). apply Hg in Hy. subst y. contradiction.
Qed.

Section ListProofs.
Import LinearLayout.
Variable E : Type.

Lemma ordered_extend_shape (l : OrderedList.OrderedList E) (es : list E)
  (Hfit : (OrderedList.number E l + N.of_nat (List.length es) < 2 ^ 64)%N) :
  let l' := OrderedList.extend E l es in
  map (BulletPoint.bullet E) (elements _ (OrderedList.layout E l'))
    = map (BulletPoint.bullet E) (elements _ (OrderedList.layout E l))
      ++ map (fun i => OrderedList.fmt_usize (OrderedList.number E l + N.of_nat i) ++ ["."%char])
           (seq 0 (List.length es))
  /\ elements _ (OrderedList.layout E l')
     = elements _ (OrderedList.layout E l)
       ++ map (fun '(e, b) => BulletPoint.new E e b)
            (combine es (map (fun i => OrderedList.fmt_usize (OrderedList.number E l + N.of_nat i)
                                       ++ ["."%char]) (seq 0 (List.length es))))
  /\ render_idx _ (OrderedList.layout E l') = render_idx _ (OrderedList.layout E l)
  /\ OrderedList.number E l' = (OrderedList.number E l + N.of_nat (List.length es))%N.
Proof.
  revert l Hfit. induction es as [| e es IH]; intros l Hfit; cbn zeta.
  - cbn. rewrite !app_nil_r. repeat split. lia.
  - unfold OrderedList.extend. cbn [fold_left].
    cbn [List.length] in Hfit.
    assert (Hinc : OrderedList.usize_add1 (OrderedList.number E l) = (OrderedList.number E l + 1)%N).
    { unfold OrderedList.usize_add1. apply N.mod_small. lia. }
    specialize (IH (OrderedList.push E l e)). cbn zeta in IH. unfold OrderedList.extend in IH.
    destruct IH as (IHb & IHe & IHi & IHn).
    { unfold OrderedList.push. cbn [OrderedList.number]. rewrite Hinc. lia. }
    rewrite IHb, IHe, IHi, IHn. clear IHb IHe IHi IHn.
    unfold OrderedList.push. cbn [OrderedList.layout OrderedList.number
      LinearLayoutBuilder.push elements render_idx List.length].
    rewrite Hinc.
    assert (Hshift : map (fun i => OrderedList.fmt_usize (OrderedList.number E l + 1 + N.of_nat i)
                                   ++ ["."%char]) (seq 0 (List.length es))
                     = map (fun i => OrderedList.fmt_usize (OrderedList.number E l + N.of_nat i)
                                     ++ ["."%char]) (seq 1 (List.length es))).
    { rewrite <- seq_shift, map_map. apply map_ext. intros i. do 2 f_equal. lia. }
    rewrite Hshift. cbn [seq map combine].
    rewrite N.add_0_r, map_app, <- !app_assoc. cbn [map app].
    repeat split. lia.
Qed.

Lemma bullets_elements (es : list E) (bs : list Str) :
  List.length bs = List.length es ->
  map (BulletPoint.element E) (map (fun '(e, b) => BulletPoint.new E e b) (combine es bs)) = es.
Proof.
  revert bs. induction es as [| e es IH]; intros [| b bs] Hl; cbn in Hl |- *;
    try discriminate; [reflexivity |].
  f_equal. apply IH. lia.
Qed.

(** X6: as long as the numbers stay below [2 ^ 64] (no [usize] overflow),
    the items of an [OrderedList] started at [start] are numbered "start.",
    "start+1.", ... in order; the labels are pairwise distinct, the elements
    are kept in order, no bullet is rendered yet and the next number is
    [start] plus the item count; [from_iter] starts at 1. *)
Theorem ordered_list_numbering (start : N) (es : list E)
  (Hfit : (start + N.of_nat (List.length es) < 2 ^ 64)%N) :
  let l := OrderedList.extend E (OrderedList.with_start E start) es in
  map (BulletPoint.bullet E) (elements _ (OrderedList.layout E l))
    = map (fun i => OrderedList.fmt_usize (start + N.of_nat i) ++ ["."%char])
        (seq 0 (List.length es))
  /\ NoDup (map (BulletPoint.bullet E) (elements _ (OrderedList.layout E l)))
  /\ map (BulletPoint.element E) (elements _ (OrderedList.layout E l)) = es
  /\ Forall (fun p => BulletPoint.bullet_rendered E p = false) (elements _ (OrderedList.layout E l))
  /\ render_idx _ (OrderedList.layout E l) = 0%nat
  /\ OrderedList.number E l = (start + N.of_nat (List.length es))%N
  /\ OrderedList.from_iter E es = OrderedList.extend E (OrderedList.with_start E 1) es.
Proof.
  cbn zeta.
  destruct (ordered_extend_shape (OrderedList.with_start E start) es Hfit) as (Hb & He & Hi & Hn).
  cbn [OrderedList.with_start OrderedList.layout OrderedList.number LinearLayoutBuilder.vertical
       elements render_idx map app] in Hb, He, Hi, Hn.
  rewrite Hb, He, Hi, Hn. split; [reflexivity |]. split; [| split; [| split; [| split; [| split]]]].
  - apply NoDup_map_injective; [| apply seq_NoDup].
    intros i j Hij. apply app_inv_tail, fmt_usize_inj in Hij. lia.
  - apply bullets_elements. now rewrite length_map, length_seq.
  - apply Forall_forall. intros p Hp. apply in_map_iff in Hp as ([e b] & <- & _). reflexivity.
  - reflexivity.
  - reflexivity.
  - reflexivity.
Qed.

End ListProofs.


Section UnorderedProofs.
Import LinearLayout.
Variable E : Type.

Lemma unordered_extend_shape (l : UnorderedList.UnorderedList E) (es : list E) :
  let l' := UnorderedList.extend E l es in
  let b := match UnorderedList.bullet E l with Some b => b | None => en_dash end in
  elements _ (UnorderedList.layout E l')
    = elements _ (UnorderedList.layout E l) ++ map (fun e => BulletPoint.new E e b) es
  /\ render_idx _ (UnorderedList.layout E l') = render_idx _ (UnorderedList.layout E l)
  /\ UnorderedList.bullet E l' = UnorderedList.bullet E l.
Proof.
  revert l. induction es as [| e es IH]; intros l; cbn zeta.
  - cbn. now rewrite app_nil_r.
  - unfold UnorderedList.extend. cbn [fold_left].
    specialize (IH (UnorderedList.push E l e)). cbn zeta in IH.
    unfold UnorderedList.extend in IH. destruct IH as (IHe & IHi & IHb).
    rewrite IHe, IHi, IHb. unfold UnorderedList.push.
    destruct (UnorderedList.bullet E l) eqn:Hb;
      cbn [UnorderedList.layout UnorderedList.bullet LinearLayoutBuilder.push elements render_idx];
      rewrite ?Hb, <- app_assoc; auto.
Qed.

(** X7: every element pushed onto an unordered list gets the list's bullet,
    the en dash when none was set, keeps its order and is not rendered
    yet. *)
Theorem unordered_list_bullets (bopt : option Str) (es : list E) :
  let l0 := match bopt with Some b => UnorderedList.with_bullet E b
                            | None => UnorderedList.new E end in
  let l := UnorderedList.extend E l0 es in
  map (BulletPoint.bullet E) (elements _ (UnorderedList.layout E l))
    = repeat (match bopt with Some b => b | None => en_dash end) (List.length es)
  /\ map (BulletPoint.element E) (elements _ (UnorderedList.layout E l)) = es
  /\ Forall (fun p => BulletPoint.bullet_rendered E p = false)
       (elements _ (UnorderedList.layout E l))
  /\ render_idx _ (UnorderedList.layout E l) = 0%nat
  /\ UnorderedList.bullet E l = bopt.
Proof.
  cbn zeta.
  pose proof (unordered_extend_shape
                (match bopt with Some b => UnorderedList.with_bullet E b
                            | None => UnorderedList.new E end) es) as H.
  cbn zeta in H. destruct H as (He & Hi & Hb).
  rewrite He, Hi, Hb. clear He Hi Hb.
  destruct bopt as [b |]; cbn; rewrite !map_map.
  all: split; [ induction es as [| e0 es IHes]; [reflexivity | cbn [map repeat List.length]; rewrite IHes; reflexivity] |].
  all: split; [ rewrite map_id; reflexivity |].
  all: split; [ apply Forall_map, Forall_forall; reflexivity | auto ].
Qed.

End UnorderedProofs.


Section FrameProofs.
Import Render FrameCellDecorator FrameFacts.

Lemma decorate_cell_shape (d : FrameCellDecorator) (c r : nat) (hm : bool) (a : Area)
  (rh : Mm) :
  exists ops,
    decorate_cell d c r hm a rh
    = ((if print_bottom d r hm
        then (if print_top d r then rh + thickness (line_style d) else rh)
             + thickness (line_style d)
        else if print_top d r then rh + thickness (line_style d) else rh),
       (if Nat.eqb (c + 1) (num_columns d)
        then mkFrameCellDecorator (inner d) (outer d) (cont d) (line_style d)
               (num_columns d) (num_rows d) (Some r)
        else d), ops).
Proof. eexists. reflexivity. Qed.

Lemma decorate_cells_last_row (areas : list Area) (i : nat) (d : FrameCellDecorator)
  (row : nat) (hm : bool) (rh h : Mm) :
  (i + List.length areas)%nat = num_columns d -> areas <> [] ->
  snd (fst (TableLayout.decorate_cells FrameCellDecorator decorate_cell d row hm areas i rh h))
  = mkFrameCellDecorator (inner d) (outer d) (cont d) (line_style d) (num_columns d)
      (num_rows d) (Some row).
Proof.
  revert i d h. induction areas as [| a rest IH]; intros i d h Hn Hne; [congruence |].
  cbn [TableLayout.decorate_cells].
  destruct (decorate_cell_shape d i row hm a rh) as [ops Hdc]. rewrite Hdc.
  destruct rest as [| a' rest'].
  - cbn in Hn. rewrite (proj2 (Nat.eqb_eq _ _)) by lia. reflexivity.
  - rewrite (proj2 (Nat.eqb_neq _ _)) by (cbn in Hn; lia).
    cbn beta iota.
    match goal with |- context [TableLayout.decorate_cells _ _ d row hm _ (S i) rh ?hh] =>
      pose proof (IH (S i) d hh ltac:(cbn in Hn |- *; lia) ltac:(discriminate)) as IH' end.
    destruct (TableLayout.decorate_cells _ _ _ _ _ _ _ _ _) as [[h2 d2] ops2].
    exact IH'.
Qed.

(** X8: after a row has been decorated, the frame decorator remembers it as
    its last row: a continuation of that row on the next page gets a top
    line exactly when [cont] is set (its cells moved down by the line
    thickness), and the following row gets one exactly when [inner] is set. *)
Theorem frame_row_continuation_top (d : FrameCellDecorator) (row : nat) (hm : bool)
  (areas : list Area) (rh : Mm)
  (Hcols : num_columns d = List.length areas) (Hne : areas <> []) :
  let d' := snd (fst (TableLayout.decorate_cells FrameCellDecorator decorate_cell d row hm
                         areas 0 rh rh)) in
  last_row d' = Some row
  /\ print_top d' row = cont d
  /\ print_top d' (S row) = inner d
  /\ (forall (c : nat) (a : Area),
        py (origin (prepare_cell d' c row a))
        = py (origin a) + (if cont d then thickness (line_style d) else 0)).
Proof.
  cbn zeta. rewrite (decorate_cells_last_row areas 0 d row hm rh rh) by (cbn; lia || exact Hne).
  unfold print_top. cbn [last_row inner cont].
  rewrite Nat.ltb_irrefl. rewrite (proj2 (Nat.ltb_lt row (S row))) by lia.
  split; [reflexivity | split; [reflexivity | split; [reflexivity |]]].
  intros c a. unfold prepare_cell, print_top. cbn [last_row cont line_style].
  rewrite Nat.ltb_irrefl. reflexivity.
Qed.

End FrameProofs.

Section FrameRowHeight.
Import Render FrameCellDecorator FrameFacts.

Lemma split_go_length (a : Area) (total : Q) (ws : list nat) (x : Mm) :
  List.length (TableLayout.split_go a total ws x) = List.length ws.
Proof.
  revert x. induction ws as [| w ws IH]; intros x; cbn; [reflexivity | now rewrite IH].
Qed.

Lemma split_horizontally_length (a : Area) (ws : list nat) :
  List.length (TableLayout.split_horizontally a ws) = List.length ws.
Proof. apply split_go_length. Qed.

Lemma decorate_cells_height (areas : list Area) (i : nat) (d : FrameCellDecorator)
  (row : nat) (hm : bool) (rh h : Mm) :
  (i + List.length areas)%nat = num_columns d -> areas <> [] ->
  fst (fst (TableLayout.decorate_cells FrameCellDecorator decorate_cell d row hm areas i rh h))
  == Qmax h (framed_height d row hm rh).
Proof.
  revert i h. induction areas as [| a rest IH]; intros i h Hn Hne; [congruence |].
  cbn [TableLayout.decorate_cells].
  destruct (decorate_cell_shape d i row hm a rh) as [ops Hdc]. rewrite Hdc.
  destruct rest as [| a' rest'].
  - cbn. reflexivity.
  - rewrite (proj2 (Nat.eqb_neq _ _)) by (cbn in Hn; lia).
    cbn beta iota.
    match goal with |- context [TableLayout.decorate_cells _ _ d row hm _ (S i) rh ?hh] =>
      pose proof (IH (S i) hh ltac:(cbn in Hn |- *; lia) ltac:(discriminate)) as IH' end.
    destruct (TableLayout.decorate_cells _ _ _ _ _ _ _ _ _) as [[h2 d2] ops2].
    cbn in IH' |- *. rewrite IH'. fold (framed_height d row hm rh).
    rewrite <- Q.max_assoc, Q.max_id. reflexivity.
Qed.

(** X9: in a table framed by [FrameCellDecorator], a rendered row is as
    high as its highest cell plus the line thickness for a top line and
    for a bottom line, each when the decorator draws it. *)
Theorem frame_row_height (E : Type) (f : RenderFn E)
  (self : TableLayout.TableLayout E FrameCellDecorator) (d : FrameCellDecorator)
  (ctx : Context) (area : Area) (st : Style)
  (Hd : TableLayout.cell_decorator _ _ self = Some d)
  (Hcols : num_columns d = List.length (TableLayout.column_weights _ _ self))
  (Hne : TableLayout.column_weights _ _ self <> [])
  (Ht : 0 <= thickness (line_style d))
  (hm : bool) (rh : Mm) (cells' : list E) (ops0 : list Op)
  (Hcells :
     let areas := TableLayout.split_horizontally area (TableLayout.column_weights _ _ self) in
     TableLayout.render_cells E f ctx st
       (map (fun '(i, a) => prepare_cell d i (TableLayout.render_idx _ _ self) a)
          (combine (seq 0 (List.length areas)) areas))
       (match nth_error (TableLayout.rows _ _ self) (TableLayout.render_idx _ _ self) with
        | Some r => r | None => [] end) false 0
     = (Ok (hm, rh), cells', ops0)) :
  exists rr self' ops,
    TableLayout.render_row E f FrameCellDecorator prepare_cell decorate_cell self ctx area st
    = (Ok rr, self', ops)
    /\ has_more rr = hm
    /\ height (size rr)
       == rh + (if print_top d (TableLayout.render_idx _ _ self) then thickness (line_style d) else 0)
             + (if print_bottom d (TableLayout.render_idx _ _ self) hm
                then thickness (line_style d) else 0).
Proof.
  cbn zeta in Hcells.
  unfold TableLayout.render_row. rewrite Hd. cbn zeta. rewrite Hcells. cbn beta iota.
  pose proof (decorate_cells_height
                (TableLayout.split_horizontally area (TableLayout.column_weights _ _ self)) 0 d
                (TableLayout.render_idx _ _ self) hm rh rh) as Hh.
  rewrite split_horizontally_length in Hh.
  specialize (Hh (eq_sym Hcols)).
  assert (Hne' : TableLayout.split_horizontally area (TableLayout.column_weights _ _ self) <> []).
  { intros Hnil. apply Hne. apply length_zero_iff_nil.
    rewrite <- (split_horizontally_length area). now rewrite Hnil. }
  specialize (Hh Hne').
  destruct (TableLayout.decorate_cells _ _ _ _ _ _ _ _ _) as [[h d'] ops2].
  do 3 eexists. split; [reflexivity |]. split; [reflexivity |].
  cbn [size height fst] in Hh |- *. rewrite Hh.
  unfold framed_height.
  destruct (print_top d _), (print_bottom d _ _); unfold Qmax, GenericMinMax.gmax;
    match goal with |- context [Qcompare ?x ?y] => destruct (Qcompare_spec x y) end.
  all: lra.

Qed.

End FrameRowHeight.


Lemma Qplus_0_r_eq (q : Q) : q + 0 = q.
Proof. destruct q as [n d]. unfold Qplus. cbn. f_equal; lia. Qed.

Lemma Qminus_00_eq (q : Q) : q - (0 + 0) = q.
Proof. destruct q as [n d]. unfold Qminus, Qplus, Qopp. cbn. f_equal; lia. Qed.

Lemma Qmax_same (q : Q) : Qmax q q = q.
Proof. unfold Qmax, GenericMinMax.gmax. now destruct (q ?= q). Qed.

Lemma add_margins_zero (a : Render.Area) : Render.add_margins a (Render.trbl 0 0 0 0) = a.
Proof.
  destruct a as [[x y] [w h]]. unfold Render.add_margins, Render.trbl.
  cbn [px py Render.origin Render.area_size width height].
  now rewrite !Qplus_0_r_eq, !Qminus_00_eq.
Qed.

Section FrameOff.
Import Render FrameCellDecorator FrameFacts.

Lemma frame_off_prints (d : FrameCellDecorator) (c r : nat) (hm : bool) :
  frame_off d ->
  print_left d c = false /\ print_right d c = false /\ print_top d r = false
  /\ print_bottom d r hm = false.
Proof.
  intros (Hi & Ho & Hc). unfold print_left, print_right, print_top, print_bottom.
  rewrite Hi, Ho, Hc.
  repeat split; repeat match goal with |- context [if ?b then _ else _] => destruct b end;
    reflexivity.
Qed.

Lemma prepare_cell_off (d : FrameCellDecorator) (c r : nat) (a : Area) :
  frame_off d -> prepare_cell d c r a = a.
Proof.
  intros Hoff. destruct (frame_off_prints d c r false Hoff) as (Hl & Hr & Ht & Hb).
  unfold prepare_cell. rewrite Hl, Hr, Ht, Hb. apply add_margins_zero.
Qed.

Lemma decorate_cells_off (d : FrameCellDecorator) (row : nat) (hm : bool) (areas : list Area)
  (i : nat) (rh : Mm) :
  frame_off d ->
  exists d', frame_off d'
             /\ TableLayout.decorate_cells FrameCellDecorator decorate_cell d row hm areas i rh rh
                = (rh, d', []).
Proof.
  revert d i. induction areas as [| a areas IH]; intros d i Hoff; [exists d; auto |].
  cbn [TableLayout.decorate_cells].
  destruct (frame_off_prints d i row hm Hoff) as (Hl & Hr & Ht & Hb).
  unfold decorate_cell at 1. rewrite Hl, Hr, Ht, Hb. cbn beta iota zeta.
  rewrite Qmax_same.
  match goal with |- context [TableLayout.decorate_cells _ _ ?d' row hm areas (S i) rh rh] =>
    assert (Hoff' : frame_off d') by (destruct (Nat.eqb _ _); [exact Hoff | exact Hoff]);
    destruct (IH d' (S i) Hoff') as (d2 & Hoff2 & ->) end.
  exists d2. auto.
Qed.

Lemma map_combine_seq_snd {A} (l : list A) (k : nat) (g : nat -> A -> A) :
  (forall i a, g i a = a) -> map (fun '(i, a) => g i a) (combine (seq k (List.length l)) l) = l.
Proof.
  intros Hg. revert k. induction l as [| a l IH]; intros k; cbn; [reflexivity |].
  now rewrite Hg, IH.
Qed.

Variable E : Type.
Variable f : RenderFn E.

Lemma render_row_off (ws : list nat) (rs : list (list E)) (idx : nat) (d : FrameCellDecorator)
  (ctx : Context) (area : Area) (st : Style) :
  frame_off d ->
  let '(r2, t2, ops2) :=
    TableLayout.render_row E f FrameCellDecorator prepare_cell decorate_cell
      (TableLayout.mkTableLayout E _ ws rs idx None) ctx area st in
  exists d', frame_off d'
    /\ TableLayout.cell_decorator _ _ t2 = None
    /\ TableLayout.render_row E f FrameCellDecorator prepare_cell decorate_cell
         (TableLayout.mkTableLayout E _ ws rs idx (Some d)) ctx area st
       = (r2, TableLayout.mkTableLayout E _ (TableLayout.column_weights _ _ t2)
                (TableLayout.rows _ _ t2) (TableLayout.render_idx _ _ t2) (Some d'), ops2).
Proof.
  intros Hoff. unfold TableLayout.render_row.
  cbn [TableLayout.cell_decorator TableLayout.column_weights TableLayout.rows
       TableLayout.render_idx].
  rewrite (map_combine_seq_snd _ 0 (fun i a => prepare_cell d i idx a))
    by (intros; now apply prepare_cell_off).
  destruct (TableLayout.render_cells _ _ _ _ _ _ _ _) as [[r row'] ops] eqn:Hc.
  destruct r as [[hm rh] | err].
  - destruct (decorate_cells_off d idx hm (TableLayout.split_horizontally area ws) 0 rh Hoff)
      as (d' & Hoff' & ->).
    exists d'. rewrite app_nil_r. auto.
  - exists d. auto.
Qed.

Lemma render_loop_off (fuel : nat) (ws : list nat) (rs : list (list E)) (idx : nat)
  (d : FrameCellDecorator) (ctx : Context) (area : Area) (st : Style) (h : Mm) :
  frame_off d ->
  let '(r2, t2, ops2) :=
    TableLayout.render_loop E f FrameCellDecorator prepare_cell decorate_cell fuel
      (TableLayout.mkTableLayout E _ ws rs idx None) ctx area st h in
  exists d', TableLayout.cell_decorator _ _ t2 = None
    /\ TableLayout.render_loop E f FrameCellDecorator prepare_cell decorate_cell fuel
         (TableLayout.mkTableLayout E _ ws rs idx (Some d)) ctx area st h
       = (r2, TableLayout.mkTableLayout E _ (TableLayout.column_weights _ _ t2)
                (TableLayout.rows _ _ t2) (TableLayout.render_idx _ _ t2) (Some d'), ops2).
Proof.
  revert ws rs idx d area h. induction fuel as [| fuel IH]; intros ws rs idx d area h Hoff.
  - exists d. auto.
  - cbn [TableLayout.render_loop TableLayout.render_idx TableLayout.rows].
    destruct (Nat.ltb idx (List.length rs)); [| exists d; auto].
    pose proof (render_row_off ws rs idx d ctx area st Hoff) as Hrow.
    destruct (TableLayout.render_row _ _ _ _ _ (TableLayout.mkTableLayout E _ ws rs idx None)
                ctx area st) as [[r2 t2] ops2].
    destruct Hrow as (d' & Hoff' & Hnone & ->).
    destruct r2 as [rr | err]; [| exists d'; auto].
    destruct (has_more rr); [exists d'; auto |].
    cbn [TableLayout.column_weights TableLayout.rows TableLayout.render_idx
         TableLayout.cell_decorator].
    rewrite Hnone.
    pose proof (IH (TableLayout.column_weights _ _ t2) (TableLayout.rows _ _ t2)
                  (S (TableLayout.render_idx _ _ t2)) d'
                  (add_offset area (mkPosition 0 (height (size rr)))) (h + height (size rr))
                  Hoff') as Hl.
    destruct (TableLayout.render_loop _ _ _ _ _ _ _ _ _ _ _) as [[r3 t3] ops3].
    destruct Hl as (d3 & Hn3 & ->). exists d3. auto.
Qed.

(** X10: a [FrameCellDecorator] with inner, outer and continuation lines
    all off changes nothing: the table renders with the same result, the
    same rows and index, and the same drawing operations as with no
    decorator. *)
Theorem frame_decorator_off_is_transparent (ws : list nat) (rs : list (list E)) (idx : nat)
  (d : FrameCellDecorator) (ctx : Context) (area : Area) (st : Style)
  (Hoff : inner d = false /\ outer d = false /\ cont d = false) :
  let '(r2, t2, ops2) :=
    TableLayout.render E f FrameCellDecorator set_table_size prepare_cell decorate_cell
      (TableLayout.mkTableLayout E _ ws rs idx None) ctx area st in
  exists d',
    TableLayout.render E f FrameCellDecorator set_table_size prepare_cell decorate_cell
      (TableLayout.mkTableLayout E _ ws rs idx (Some d)) ctx area st
    = (r2, TableLayout.mkTableLayout E _ (TableLayout.column_weights _ _ t2)
             (TableLayout.rows _ _ t2) (TableLayout.render_idx _ _ t2) (Some d'), ops2).
Proof.
  unfold TableLayout.render.
  cbn [TableLayout.column_weights TableLayout.rows TableLayout.render_idx
       TableLayout.cell_decorator option_map].
  destruct ws as [| w ws']; [exists d; reflexivity |].
  assert (Hoff1 : frame_off (set_table_size d (List.length (w :: ws')) (List.length rs)))
    by exact Hoff.
  pose proof (render_loop_off (List.length rs - idx) (w :: ws') rs idx _ ctx area st 0 Hoff1)
    as Hl.
  cbn [TableLayout.column_weights TableLayout.rows TableLayout.render_idx].
  destruct (TableLayout.render_loop E f FrameCellDecorator prepare_cell decorate_cell
              (List.length rs - idx) (TableLayout.mkTableLayout E _ (w :: ws') rs idx None)
              ctx area st 0) as [[r3 t3] ops3].
  destruct Hl as (d3 & Hn3 & ->).
  destruct r3; cbn beta iota; exists d3; reflexivity.
Qed.

End FrameOff.



Section CodeBlockDrain.
Import Render CodeBlock.

Lemma ascii_eqb_false (a b : ascii) : a <> b -> ascii_eqb a b = false.
Proof. intros H. unfold ascii_eqb. now apply Ascii.eqb_neq. Qed.

Lemma ascii_eqb_true (a b : ascii) : ascii_eqb a b = true -> a = b.
Proof. unfold ascii_eqb. now apply Ascii.eqb_eq. Qed.

Lemma strip_cr_incl (l : Str) (c : ascii) : In c (strip_cr l) -> In c l.
Proof.
  unfold strip_cr. destruct (rev l) as [| x rest] eqn:Hr; [auto |].
  destruct (ascii_eqb x carriage_return); [| auto].
  intros Hin. rewrite <- (rev_involutive l), Hr. cbn. apply in_or_app. now left.
Qed.

Lemma lines_go_no_newline (t acc : Str) :
  ~ In newline acc -> forall l, In l (lines_go t acc) -> ~ In newline l.
Proof.
  revert acc. induction t as [| c t IH]; intros acc Hacc l Hl; cbn [lines_go] in Hl.
  - destruct acc as [| a acc']; cbn in Hl; [contradiction |].
    destruct Hl as [<- | []]. intros Hin. now apply strip_cr_incl in Hin.
  - destruct (ascii_eqb c newline) eqn:Hc; cbn [In] in Hl.
    + destruct Hl as [<- | Hl].
      * intros Hin. now apply strip_cr_incl in Hin.
      * exact (IH [] (fun h => h) l Hl).
    + apply (IH (acc ++ [c])); [| exact Hl].
      intros Hin. apply in_app_or in Hin as [Hin | [Hin | []]]; [contradiction |].
      subst c. unfold ascii_eqb in Hc. now rewrite Ascii.eqb_refl in Hc.
Qed.

Lemma trim_end_newlines_id (l : Str) : ~ In newline l -> trim_end_newlines l = l.
Proof.
  intros Hl. unfold trim_end_newlines.
  destruct (rev l) as [| c rest] eqn:Hr.
  - apply (f_equal (@rev ascii)) in Hr. rewrite rev_involutive in Hr. now subst.
  - rewrite ascii_eqb_false.
    + rewrite <- Hr. apply rev_involutive.
    + intros ->. apply Hl. apply in_rev. rewrite Hr. now left.
Qed.

Lemma lines_go_incl (t acc : Str) (l : Str) (b : ascii) :
  In l (lines_go t acc) -> In b l -> In b acc \/ In b t.
Proof.
  revert acc. induction t as [| c t IH]; intros acc Hl Hb; cbn [lines_go] in Hl.
  - destruct acc as [| a acc']; cbn in Hl; [contradiction |].
    destruct Hl as [<- | []]. left. now apply strip_cr_incl in Hb.
  - destruct (ascii_eqb c newline); cbn [In] in Hl.
    + destruct Hl as [<- | Hl].
      * left. now apply strip_cr_incl in Hb.
      * destruct (IH [] Hl Hb) as [[] | H]. right. now right.
    + destruct (IH (acc ++ [c]) Hl Hb) as [H | H]; [| right; now right].
      apply in_app_or in H as [H | [<- | []]]; [now left | right; now left].
Qed.

Lemma fold_chars_app (a b : list Str) :
  fold_right (fun l k => (char_count l + k)%nat) 0%nat (a ++ b)
  = (fold_right (fun l k => (char_count l + k)%nat) 0%nat a
     + fold_right (fun l k => (char_count l + k)%nat) 0%nat b)%nat.
Proof. induction a as [| l a IH]; cbn [app fold_right]; lia. Qed.

Lemma fold_chars_ascii (M : list Str) :
  (forall l, In l M -> Forall (fun b => is_ascii7 b = true) l) ->
  fold_right (fun l k => (char_count l + k)%nat) 0%nat M = List.length (List.concat M).
Proof.
  induction M as [| l M IH]; intros HM; [reflexivity |].
  cbn [fold_right List.concat]. rewrite length_app, char_count_ascii by (apply HM; now left).
  rewrite IH by (intros l' H; apply HM; now right). reflexivity.
Qed.

(** The loop of [CodeBlock::render] over one-span lines without line
    breaks: it places a prefix of the lines and counts their characters. *)
Lemma render_code_lines_plain (fc : FontCache) (st : Style) (L : list Str) (area : Area)
  (res : RenderResult) (rc : nat) :
  (forall l, In l L -> ~ In newline l) ->
  let '(r, n, ops) :=
    render_code_lines fc area (map (fun line => [mkStyledString line st]) L) res rc in
  exists k, (k <= List.length L)%nat
    /\ n = (rc + fold_right (fun l k => (char_count l + k)%nat) 0%nat (firstn k L))%nat
    /\ emitted ops = List.concat (firstn k L)
    /\ has_more r = (has_more res || Nat.ltb k (List.length L)).
Proof.
  revert area res rc. induction L as [| l L IH]; intros area res rc HL.
  - cbn. exists 0%nat. rewrite orb_false_r. simpl. split; [lia | split; [lia | split; reflexivity]].
  - cbn [map render_code_lines].
    destruct (fits _ _ _).
    + match goal with |- context [render_code_lines fc ?a' (map _ L) ?res' ?rc'] =>
        specialize (IH a' res' rc' (fun l' H => HL l' (or_intror H))) end.
      destruct (render_code_lines _ _ _ _ _) as [[r n] ops].
      destruct IH as (k & Hk & Hn & He & Hh).
      exists (S k). cbn [firstn List.concat List.length].
      split; [lia |]. split.
      * rewrite Hn. cbn [firstn fold_right s]. lia.
      * split.
        -- unfold emitted. rewrite flat_map_app. fold (emitted ops). rewrite He.
           cbn [s]. rewrite (trim_end_newlines_id l) by (apply HL; now left).
           cbn. rewrite !app_nil_r. reflexivity.
        -- rewrite Hh. cbn [has_more]. reflexivity.
    + exists 0%nat. cbn. split; [lia |]. split; [lia |]. split; [reflexivity |].
      now rewrite orb_true_r.
Qed.

Variable Syntax Theme : Type.
Variable highlight_lines : Syntax -> Theme -> list Str -> list (list (SyntaxStyle * Str)).

(** X12: for ASCII code without syntax highlighting, [CodeBlock::render]
    places a prefix of the code's lines and then removes from the stored
    code only as many characters as those lines hold without their line
    breaks, so after a partial render over several lines the kept code
    still holds text already printed ("ab\ncd\nef" keeps "d\nef" after
    two lines). *)
Theorem codeblock_fallback_drains_without_newlines (cb : CodeBlock)
  (hl : option (SyntaxHighlighter Syntax Theme)) (ctx : Context) (area : Area) (st : Style)
  (Hcode : code cb <> [])
  (Hascii : Forall (fun b => is_ascii7 b = true) (code cb))
  (Hfallback : theme cb = None
               \/ exists h th, hl = Some h /\ theme cb = Some th
                               /\ highlight Syntax Theme highlight_lines h (code cb) (language cb) th
                                    (base_style cb) (only_regular_font cb) = None) :
  exists res ops k,
    render Syntax Theme highlight_lines cb ctx hl area st
    = Some (Ok res,
            mkCodeBlock (skipn (List.length (List.concat (firstn k (lines (code cb))))) (code cb))
              (base_style cb) (only_regular_font cb) (language cb) (theme cb), ops)
    /\ emitted ops = List.concat (firstn k (lines (code cb)))
    /\ (k <= List.length (lines (code cb)))%nat
    /\ has_more res = Nat.ltb k (List.length (lines (code cb))).
Proof.
  assert (Hlines : highlighted_lines Syntax Theme highlight_lines cb hl
                   = Some (dummy_highlighting cb (base_style cb))).
  { unfold highlighted_lines.
    destruct Hfallback as [Hnone | (h & th & -> & Hth & Hmiss)].
    - now rewrite Hnone.
    - now rewrite Hth, Hmiss. }
  unfold render. destruct (code cb) as [| c0 cs] eqn:Hc; [congruence |].
  rewrite Hlines. unfold dummy_highlighting. rewrite Hc.
  pose proof (render_code_lines_plain (font_cache ctx) (base_style cb) (lines (c0 :: cs)) area
                render_result_default 0 (lines_go_no_newline (c0 :: cs) [] (fun h => h)))
    as Hplain.
  assert (HLasc : forall l, In l (lines (c0 :: cs)) -> Forall (fun b => is_ascii7 b = true) l).
  { intros l Hl. apply Forall_forall. intros b Hb.
    destruct (lines_go_incl (c0 :: cs) [] l b Hl Hb) as [[] | H].
    rewrite Forall_forall in Hascii. now apply Hascii. }
  pose proof (lines_chars_total (c0 :: cs)) as Htot.
  pose proof (char_count_le (c0 :: cs)) as Hle.
  destruct (render_code_lines _ _ _ _ _) as [[res n] ops].
  destruct Hplain as (k & Hk & Hn & He & Hh).
  assert (Hsplit := firstn_skipn k (lines (c0 :: cs))).
  rewrite <- Hsplit, fold_chars_app in Htot.
  rewrite (fold_chars_ascii (firstn k (lines (c0 :: cs)))) in Hn.
  2: { intros l Hl. apply HLasc. rewrite <- Hsplit. apply in_or_app. now left. }
  rewrite (drain_to_ascii (c0 :: cs) n Hascii).
  2: { rewrite <- (fold_chars_ascii (firstn k (lines (c0 :: cs)))) in Hn.
       - lia.
       - intros l Hl. apply HLasc. rewrite <- Hsplit. apply in_or_app. now left. }
  exists res, ops, k. rewrite Hn. cbn in Hh. auto.
Qed.

End CodeBlockDrain.


Section MathReplay.
Import MathBatch MathBackend.

Lemma update_matching_some_shape (l l' : list MathOp) (y fs : Q) (c : Color)
  (upd : TextSection -> TextSection) :
  update_matching_text_section l y fs c upd = Some l' ->
  exists pre sec post, l = pre ++ OpTextSection sec :: post
                       /\ l' = pre ++ OpTextSection (upd sec) :: post.
Proof.
  revert l'. induction l as [| op l IH]; intros l' H; cbn in H; [discriminate |].
  destruct op as [sec | r].
  - destruct (can_append sec y fs c).
    + injection H as <-. now exists [], sec, l.
    + destruct (update_matching_text_section l y fs c upd) as [l'' |] eqn:Hu;
        cbn in H; [| discriminate].
      injection H as <-. destruct (IH l'' eq_refl) as (pre & sec' & post & -> & ->).
      now exists (OpTextSection sec :: pre), sec', post.
  - destruct (update_matching_text_section l y fs c upd) as [l'' |] eqn:Hu;
      cbn in H; [| discriminate].
    injection H as <-. destruct (IH l'' eq_refl) as (pre & sec' & post & -> & ->).
    now exists (OpRule r :: pre), sec', post.
Qed.

Lemma sections_app (a b : list MathOp) : sections (a ++ b) = sections a ++ sections b.
Proof. induction a as [| [s | r] a IH]; cbn; congruence. Qed.

Lemma glyph_count_app (a b : list MathOp) :
  glyph_count (a ++ b) = (glyph_count a + glyph_count b)%nat.
Proof.
  unfold glyph_count. rewrite sections_app, fold_right_app.
  generalize (sections a). intros sa. induction sa as [| s sa IH]; cbn; [| rewrite IH]; lia.
Qed.

Lemma balanced_app (a b : list MathOp) : balanced (a ++ b) <-> balanced a /\ balanced b.
Proof. unfold balanced. rewrite sections_app. apply Forall_app. Qed.

Lemma rule_ops_app (a b : list MathOp) :
  List.length (filter is_rule_op (a ++ b))
  = (List.length (filter is_rule_op a) + List.length (filter is_rule_op b))%nat.
Proof. now rewrite filter_app, length_app. Qed.

Lemma push_glyph_invariant (mb : MathBlock) (x y : Q) (gid : Z) (fs : Q) (c : Color) (adv : Q) :
  balanced (math_ops mb) ->
  let mb' := push_glyph mb x y gid fs c adv in
  block_size mb' = block_size mb
  /\ current_color mb' = current_color mb
  /\ balanced (math_ops mb')
  /\ glyph_count (math_ops mb') = S (glyph_count (math_ops mb))
  /\ List.length (filter is_rule_op (math_ops mb'))
     = List.length (filter is_rule_op (math_ops mb)).
Proof.
  intros Hb. unfold push_glyph.
  destruct (update_matching_text_section _ _ _ _ _) as [l' |] eqn:Hu.
  - destruct (update_matching_some_shape _ _ _ _ _ _ Hu) as (pre & sec & post & Hl & ->).
    rewrite Hl in Hb. cbn [block_size current_color math_ops].
    apply balanced_app in Hb as [Hpre Hpost].
    unfold balanced in Hpost; cbn in Hpost. apply Forall_cons_iff in Hpost as [Hsec Hpost].
    rewrite Hl, !glyph_count_app, !rule_ops_app.
    split; [reflexivity | split; [reflexivity | split; [| split]]].
    + apply balanced_app. split; [exact Hpre |]. unfold balanced; cbn.
      constructor; [| exact Hpost]. cbn. rewrite !length_app. cbn. lia.
    + unfold glyph_count; cbn. rewrite length_app. cbn. lia.
    + reflexivity.
  - cbn [block_size current_color math_ops].
    rewrite glyph_count_app, rule_ops_app.
    split; [reflexivity | split; [reflexivity | split; [| split]]].
    + apply balanced_app. split; [exact Hb |]. unfold balanced; cbn. now repeat constructor.
    + unfold glyph_count at 2; cbn. lia.
    + cbn. lia.
Qed.

(** X13: replaying ReX backend calls on a [MathBlock] keeps its size, keeps
    every text section balanced (one x offset per glyph id), stores one
    glyph per [symbol] call and one rule per [rule] call. *)
Theorem math_replay_counts (mb : MathBlock) (cs : list BackendCall)
  (Hb : balanced (math_ops mb)) :
  let mb' := replay mb cs in
  block_size mb' = block_size mb
  /\ balanced (math_ops mb')
  /\ glyph_count (math_ops mb')
     = (glyph_count (math_ops mb) + List.length (filter is_symbol_call cs))%nat
  /\ List.length (filter is_rule_op (math_ops mb'))
     = (List.length (filter is_rule_op (math_ops mb)) + List.length (filter is_rule_call cs))%nat.
Proof.
  unfold replay. revert mb Hb. induction cs as [| c cs IH]; intros mb Hb; cbn [fold_left].
  - cbn. repeat split; auto; lia.
  - assert (Hstep : block_size (call mb c) = block_size mb
                    /\ balanced (math_ops (call mb c))
                    /\ glyph_count (math_ops (call mb c))
                       = (glyph_count (math_ops mb) + (if is_symbol_call c then 1 else 0))%nat
                    /\ List.length (filter is_rule_op (math_ops (call mb c)))
                       = (List.length (filter is_rule_op (math_ops mb))
                          + (if is_rule_call c then 1 else 0))%nat).
    { destruct c as [x y gid fs ctx | x y w h | r g b |]; cbn [call is_symbol_call is_rule_call].
      - unfold symbol.
        destruct (push_glyph_invariant mb (x * PX_TO_MM)
                    ((y + - (ascent ctx * font_scale_y ctx) * fs) * PX_TO_MM) gid fs
                    (current_color mb) (glyph_advance ctx * font_scale_x ctx) Hb)
          as (H1 & _ & H3 & H4 & H5).
        repeat split; auto; lia.
      - unfold rule; cbn [block_size math_ops].
        rewrite glyph_count_app, rule_ops_app.
        split; [reflexivity | split; [| split]].
        + apply balanced_app. split; [exact Hb |]. constructor.
        + unfold glyph_count at 2; cbn. lia.
        + cbn. lia.
      - cbn. repeat split; auto; lia.
      - cbn. repeat split; auto; lia. }
    destruct Hstep as (H1 & H2 & H3 & H4).
    destruct (IH (call mb c) H2) as (I1 & I2 & I3 & I4).
    cbn zeta in *. rewrite I1, I3, I4, H1, H3, H4.
    destruct c; cbn [filter is_symbol_call is_rule_call List.length];
      repeat split; auto; lia.
Qed.

End MathReplay.

(** ** Concrete instances of the further properties *)

Module ExtraWitnesses.
Import Render Instances ExtraInstances.

Lemma ordered_list_numbering_witness :
  map (BulletPoint.bullet unit)
      (LinearLayout.elements _ (OrderedList.layout unit
         (OrderedList.extend unit (OrderedList.with_start unit 9) [tt; tt])))
    = [str "9."; str "10."].
Proof.
  destruct (ordered_list_numbering unit 9 [tt; tt] ltac:(vm_compute; reflexivity))
    as [Hb _].
  rewrite Hb. vm_compute. reflexivity.
Defined.

Lemma break_height_accounting_witness :
  Forall (fun out => exists rr, fst out = Ok rr /\ has_more rr = false /\ snd out = [])
    (fst (run Break.render (Break.new 3)
            [(ctx0, area0 100 10, style_default); (ctx0, area0 100 100, style_default)]))
  /\ Break.consumed (fst (run Break.render (Break.new 3)
                           [(ctx0, area0 100 10, style_default); (ctx0, area0 100 100, style_default)]))
     + Break.lines (snd (run Break.render (Break.new 3)
                           [(ctx0, area0 100 10, style_default); (ctx0, area0 100 100, style_default)]))
       * 5 == Break.lines (Break.new 3) * 5.
Proof.
  apply (break_height_accounting (Break.new 3)
           [(ctx0, area0 100 10, style_default); (ctx0, area0 100 100, style_default)] 5).
  - unfold Qeq. cbn. discriminate.
  - apply Forall_cons; [reflexivity |]. apply Forall_cons; [reflexivity | apply Forall_nil].
Defined.

Lemma break_cut_at_area_end_witness :
  LinearLayout.render _ Break.render
    (LinearLayout.mkLinearLayout _ [Break.new 3; Break.new 1] 0) ctx0 (area0 100 10) style_default
  = (Ok (mkRenderResult (stack_vertical size_default (mkSize 0 10)) (Nat.ltb 1 2)),
     LinearLayout.mkLinearLayout _ [Break.mkBreak (3 - 10 / 5); Break.new 1] 1, [])
  /\ 0 < 3 - 10 / 5.
Proof.
  apply (break_cut_at_area_end (Break.new 3) [Break.new 1] ctx0 (area0 100 10) style_default);
    vm_compute; reflexivity.
Defined.

Lemma wrappers_propagate_inner_error_witness :
  let e := mkError "cannot render" InvalidData in
  FramedElement.render unit fail_elem (FramedElement.mkFramedElement unit tt true (mkLineStyle 1))
    ctx0 (area0 100 100) style_default
    = (Err e, FramedElement.mkFramedElement unit tt true (mkLineStyle 1), [])
  /\ BulletPoint.render unit fail_elem (BulletPoint.mkBulletPoint unit tt 10 2 (str "-") false)
    ctx0 (area0 100 100) style_default
    = (Err e, BulletPoint.mkBulletPoint unit tt 10 2 (str "-") false, [])
  /\ PaddedElement.render unit fail_elem (PaddedElement.mkPaddedElement unit tt (trbl 1 1 1 1))
    ctx0 (area0 100 100) style_default
    = (Err e, PaddedElement.mkPaddedElement unit tt (trbl 1 1 1 1), [])
  /\ StyledElement.render unit fail_elem (StyledElement.mkStyledElement unit tt style_default)
    ctx0 (area0 100 100) style_default
    = (Err e, StyledElement.mkStyledElement unit tt style_default, []).
Proof.
  destruct (wrappers_propagate_inner_error unit fail_elem tt ctx0 (area0 100 100) style_default)
    as (Hf & Hb & Hp & Hs).
  split; [| split; [| split]].
  - exact (Hf true (mkLineStyle 1) tt _ [] eq_refl).
  - exact (Hb 10 2 (str "-") false tt _ [] eq_refl).
  - exact (Hp 1 1 1 1 tt _ [] eq_refl).
  - exact (Hs style_default tt _ [] eq_refl).
Defined.

Lemma padded_bottom_padding_not_reserved_witness :
  exists rr', PaddedElement.render unit fill_elem (PaddedElement.new unit tt (trbl 1 2 3 4))
                ctx0 (area0 100 50) style_default
              = (Ok rr', PaddedElement.mkPaddedElement unit tt (trbl 1 2 3 4), [])
    /\ height (size rr') == 50 + 3
    /\ width (size rr') == (100 - (2 + 4)) + (4 + 2)
    /\ has_more rr' = false.
Proof.
  exact (padded_bottom_padding_not_reserved unit fill_elem (PaddedElement.new unit tt (trbl 1 2 3 4))
           ctx0 (area0 100 50) style_default 1 2 3 4
           (mkRenderResult (area_size (add_margins (area0 100 50) (trbl 1 2 0 4))) false) tt []
           eq_refl eq_refl (Qeq_refl _)).
Defined.

Lemma linear_layout_idle_render_witness :
  LinearLayout.render unit done_elem (LinearLayout.mkLinearLayout unit [tt] 1) ctx0
    (area0 100 100) style_default
  = (Ok (mkRenderResult size_default (Nat.ltb 1 1)), LinearLayout.mkLinearLayout unit [tt] 1, []).
Proof.
  apply (linear_layout_idle_render unit done_elem (LinearLayout.mkLinearLayout unit [tt] 1)).
  left. cbn. lia.
Defined.

Lemma frame_row_continuation_top_witness :
  let d' := snd (fst (TableLayout.decorate_cells FrameCellDecorator.FrameCellDecorator
                        FrameCellDecorator.decorate_cell frame_2x1 0 false
                        [area0 50 10; area0 50 10] 0 5 5)) in
  FrameCellDecorator.last_row d' = Some 0%nat
  /\ FrameCellDecorator.print_top d' 0 = true
  /\ FrameCellDecorator.print_top d' 1 = true
  /\ (forall (c : nat) (a : Area),
        py (origin (FrameCellDecorator.prepare_cell d' c 0 a)) = py (origin a) + 1).
Proof.
  exact (frame_row_continuation_top frame_2x1 0 false [area0 50 10; area0 50 10] 5 eq_refl
           ltac:(discriminate)).
Defined.

Lemma frame_row_height_witness :
  exists rr self' ops,
    TableLayout.render_row unit done_elem FrameCellDecorator.FrameCellDecorator
      FrameCellDecorator.prepare_cell FrameCellDecorator.decorate_cell table_2x1 ctx0
      (area0 100 100) style_default
    = (Ok rr, self', ops)
    /\ has_more rr = false
    /\ height (size rr) == 5 + 1 + 1.
Proof.
  exact (frame_row_height unit done_elem table_2x1 frame_2x1 ctx0 (area0 100 100) style_default
           eq_refl eq_refl ltac:(discriminate) ltac:(vm_compute; discriminate) false 5 [tt; tt] []
           ltac:(vm_compute; reflexivity)).
Defined.

Lemma frame_decorator_off_is_transparent_witness :
  let '(r2, t2, ops2) :=
    TableLayout.render unit done_elem FrameCellDecorator.FrameCellDecorator
      FrameCellDecorator.set_table_size FrameCellDecorator.prepare_cell
      FrameCellDecorator.decorate_cell
      (TableLayout.mkTableLayout unit _ [1%nat; 1%nat] [[tt; tt]; [tt; tt]] 0 None) ctx0
      (area0 100 100) style_default in
  exists d',
    TableLayout.render unit done_elem FrameCellDecorator.FrameCellDecorator
      FrameCellDecorator.set_table_size FrameCellDecorator.prepare_cell
      FrameCellDecorator.decorate_cell
      (TableLayout.mkTableLayout unit _ [1%nat; 1%nat] [[tt; tt]; [tt; tt]] 0 (Some frame_none))
      ctx0 (area0 100 100) style_default
    = (r2, TableLayout.mkTableLayout unit _ (TableLayout.column_weights _ _ t2)
             (TableLayout.rows _ _ t2) (TableLayout.render_idx _ _ t2) (Some d'), ops2).
Proof.
  exact (frame_decorator_off_is_transparent unit done_elem [1%nat; 1%nat] [[tt; tt]; [tt; tt]] 0
           frame_none ctx0 (area0 100 100) style_default (conj eq_refl (conj eq_refl eq_refl))).
Defined.

Lemma codeblock_fallback_drains_without_newlines_witness :
  (exists res ops k,
    CodeBlock.render unit unit no_lines code_three_lines ctx0 None (area0 100 10) style_default
    = Some (Ok res,
            CodeBlock.mkCodeBlock
              (skipn (List.length (List.concat (firstn k (CodeBlock.lines
                                                              (CodeBlock.code code_three_lines)))))
                 (CodeBlock.code code_three_lines))
              style_default false "rust"%string None, ops)
    /\ emitted ops = List.concat (firstn k (CodeBlock.lines (CodeBlock.code code_three_lines)))
    /\ (k <= List.length (CodeBlock.lines (CodeBlock.code code_three_lines)))%nat
    /\ has_more res = Nat.ltb k (List.length (CodeBlock.lines (CodeBlock.code code_three_lines))))
  /\ exists res ops,
    CodeBlock.render unit unit no_lines code_three_lines ctx0 None (area0 100 10) style_default
    = Some (Ok res, CodeBlock.mkCodeBlock (str "d" ++ [CodeBlock.newline] ++ str "ef")
                      style_default false "rust"%string None, ops)
    /\ emitted ops = str "abcd"
    /\ has_more res = true.
Proof.
  split.
  - exact (codeblock_fallback_drains_without_newlines unit unit no_lines code_three_lines None ctx0
             (area0 100 10) style_default ltac:(discriminate)
             ltac:(vm_compute; repeat constructor) (or_introl eq_refl)).
  - do 2 eexists. split; [vm_compute; reflexivity | split; vm_compute; reflexivity].
Defined.

Lemma math_replay_counts_witness :
  let mb' := MathBackend.replay (MathBatch.new size_default) backend_calls in
  MathBatch.block_size mb' = MathBatch.block_size (MathBatch.new size_default)
  /\ MathBackend.balanced (MathBatch.math_ops mb')
  /\ MathBackend.glyph_count (MathBatch.math_ops mb') = 2%nat
  /\ List.length (filter MathBackend.is_rule_op (MathBatch.math_ops mb')) = 1%nat.
Proof.
  exact (math_replay_counts (MathBatch.new size_default) backend_calls (Forall_nil _)).
Defined.

End ExtraWitnesses.
